(** * LiquidityHunter: swing points, liquidation zones and the display band

    A shallow embedding of the analytical functions of [app.py]:
    [find_swing_points] (with the part of [scipy.signal.argrelextrema] it
    calls), [calculate_liquidation_zones], and the band filter
    ([range_mask] / [liq_df_filtered]) of the main block.

    Conventions of the model.
    - Prices are [numpy.float64] in the program; here they are exact
      rationals ([Q]).  Rounding, infinities and NaN prices are outside the
      model.  A NaN cell of a swing column (pandas' "missing") is [None].
    - A Python [str] is a [string]; a character is its code point, so the
      model covers code points 0..255.
    - A raised exception is the left summand of [result]; a normal return
      is the right one.
    - A DataFrame is the list of its rows in positional order, with the
      default [RangeIndex] (the main block calls [reset_index] before use). *)

From Stdlib Require Import String Ascii Bool.
From Stdlib Require Import ZArith NArith QArith Qfield Lqa Lia List.
Import ListNotations.

Local Open Scope Z_scope.

(** ** Exceptions *)

Module Py.

Inductive exn : Type :=
| ValueError
| ZeroDivisionError
| IndexError.

Definition result (A : Type) : Type := (exn + A)%type.

Definition ret {A : Type} (x : A) : result A := inr x.
Definition raise {A : Type} (e : exn) : result A := inl e.

Definition bind {A B : Type} (c : result A) (k : A -> result B) : result B :=
  match c with
  | inl e => inl e
  | inr x => k x
  end.

(** [for x in xs: body], threading the variables the body updates. *)
Fixpoint for_each {A S : Type} (xs : list A) (body : A -> S -> result S)
    (s : S) : result S :=
  match xs with
  | [] => ret s
  | x :: xs' => bind (body x s) (for_each xs' body)
  end.

End Py.

Import Py.

Notation "x <- c ;; k" := (bind c (fun x => k))
  (at level 61, c at next level, right associativity).

(** ** Strings: [str.replace] and [int] *)

(** [s.replace(old, new)] for a one-character [old]. *)
Fixpoint str_replace (old : ascii) (new : string) (s : string) : string :=
  match s with
  | EmptyString => EmptyString
  | String c s' =>
      if Ascii.eqb c old then (new ++ str_replace old new s')%string
      else String c (str_replace old new s')
  end.

(** White space as [int] sees it: the ASCII [Py_ISSPACE] characters, and the
    two non-ASCII spaces U+0085 and U+00A0 (the information separators
    U+001C..U+001F are not accepted). *)
Definition is_space (c : ascii) : bool :=
  let n := N_of_ascii c in
  ((9 <=? n) && (n <=? 13) || (n =? 32) || (n =? 133) || (n =? 160))%N.

Definition digit_value (c : ascii) : option Z :=
  let n := N_of_ascii c in
  if ((48 <=? n) && (n <=? 57))%N then Some (Z.of_N n - 48) else None.

Definition is_underscore (c : ascii) : bool := Ascii.eqb c "_"%char.

Fixpoint skip_space (s : string) : string :=
  match s with
  | String c s' => if is_space c then skip_space s' else s
  | EmptyString => s
  end.

(** The digit scan of [PyLong_FromString]: digits with single underscores
    between them.  [prev] tells that the previous character was an
    underscore; the result is the number of digits, their value and the
    unread rest; [None] is a doubled or trailing underscore. *)
Fixpoint scan_digits (s : string) (prev : bool) (digits : N) (acc : Z)
    : option (N * Z * string) :=
  match s with
  | EmptyString => if prev then None else Some (digits, acc, s)
  | String c s' =>
      if is_underscore c then
        if prev then None else scan_digits s' true digits acc
      else
        match digit_value c with
        | Some d => scan_digits s' false (N.succ digits) (10 * acc + d)
        | None => if prev then None else Some (digits, acc, s)
        end
  end.

(** [sys.get_int_max_str_digits()], its default. *)
Definition int_max_str_digits : N := 4300.

(** [int(s)] for a string [s], base 10. *)
Definition py_int (s : string) : result Z :=
  let s1 := skip_space s in
  let '(sign, s2) :=
    match s1 with
    | String "+" r => (1, r)
    | String "-" r => (-1, r)
    | _ => (1, s1)
    end in
  match s2 with
  | String "_" _ => raise ValueError
  | _ =>
      match scan_digits s2 false 0%N 0 with
      | None => raise ValueError
      | Some (digits, v, rest) =>
          if (digits =? 0)%N then raise ValueError
          else
            match skip_space rest with
            | EmptyString =>
                if (int_max_str_digits <? digits)%N then raise ValueError
                else ret (sign * v)
            | String _ _ => raise ValueError
            end
      end
  end.

(** [1 / lev_val] on Python integers: true division. *)
Definition true_div (a b : Z) : result Q :=
  if b =? 0 then raise ZeroDivisionError
  else ret (inject_Z a / inject_Z b)%Q.

(** ** numpy arrays as lists *)

Module Np.

(** [np.arange(start, stop)]; also Python's [range(start, stop)]. *)
Definition arange (start stop : Z) : list Z :=
  map (fun k => start + Z.of_nat k) (seq 0 (Z.to_nat (stop - start))).

(** An index under [mode='clip']: too large becomes the last position,
    negative becomes 0. *)
Definition clip_index (n : nat) (i : Z) : nat :=
  Z.to_nat (Z.max 0 (Z.min i (Z.of_nat n - 1))).

(** [data.take(indices, mode='clip')].  Every call below passes as many
    indices as [data] has elements, so an empty [data] is only ever taken
    at no index. *)
Definition take_clip (data : list Q) (indices : list Z) : list Q :=
  map (fun i => nth (clip_index (length data) i) data 0%Q) indices.

(** Element-wise operations on arrays of one shape. *)
Fixpoint map2 {A B C : Type} (f : A -> B -> C) (a : list A) (b : list B)
    : list C :=
  match a, b with
  | x :: a', y :: b' => f x y :: map2 f a' b'
  | _, _ => []
  end.

Definition greater_equal (a b : Q) : bool := Qle_bool b a.
Definition less_equal (a b : Q) : bool := Qle_bool a b.
Definition greater (a b : Q) : bool := negb (Qle_bool a b).
Definition less (a b : Q) : bool := negb (Qle_bool b a).

(** [a & b] on boolean arrays. *)
Definition and_arr (a b : list bool) : list bool := map2 andb a b.

(** [a.any()]. *)
Definition any (a : list bool) : bool := existsb (fun b => b) a.

(** [np.nonzero(a)[0]]: the positions of the true entries, ascending. *)
Fixpoint nonzero_from (k : nat) (a : list bool) : list nat :=
  match a with
  | [] => []
  | b :: a' => if b then k :: nonzero_from (S k) a' else nonzero_from (S k) a'
  end.

Definition nonzero (a : list bool) : list nat := nonzero_from 0 a.

End Np.

(** ** scipy.signal.argrelextrema *)

(** The body of the loop [for shift in range(1, order + 1)] of
    [_boolrelextrema], with its early return once no candidate is left. *)
Fixpoint relextrema_loop (comparator : Q -> Q -> bool) (data main : list Q)
    (locs : list Z) (shifts : list Z) (results : list bool) : list bool :=
  match shifts with
  | [] => results
  | shift :: shifts' =>
      let plus := Np.take_clip data (map (fun i => i + shift) locs) in
      let minus := Np.take_clip data (map (fun i => i - shift) locs) in
      let results := Np.and_arr results (Np.map2 comparator main plus) in
      let results := Np.and_arr results (Np.map2 comparator main minus) in
      if negb (Np.any results) then results
      else relextrema_loop comparator data main locs shifts' results
  end.

Definition boolrelextrema (data : list Q) (comparator : Q -> Q -> bool)
    (order : Z) : result (list bool) :=
  if order <? 1 then raise ValueError
  else
    let datalen := Z.of_nat (length data) in
    let locs := Np.arange 0 datalen in
    let results := repeat true (length data) in
    let main := Np.take_clip data locs in
    ret (relextrema_loop comparator data main locs (Np.arange 1 (order + 1))
           results).

(** [argrelextrema(data, comparator, order=order)[0]] *)
Definition argrelextrema (data : list Q) (comparator : Q -> Q -> bool)
    (order : Z) : result (list nat) :=
  results <- boolrelextrema data comparator order ;;
  ret (Np.nonzero results).

(** ** The data frame *)

Record row : Type := mkRow {
  Date : Z;
  Open : Q;
  High : Q;
  Low : Q;
  Close : Q;
  Swing_High : option Q;
  Swing_Low : option Q
}.

Definition DataFrame : Type := list row.

(** A column selected from some rows: index label and value. *)
Definition Series : Type := list (nat * Q).

(** [df.iloc[positions][col]] *)
Definition iloc_column (col : row -> Q) (df : DataFrame)
    (positions : list nat) : Series :=
  flat_map (fun i => match nth_error df i with
                     | Some r => [(i, col r)]
                     | None => []
                     end) positions.

(** The value a series holds at a label, NaN ([None]) when it has none. *)
Fixpoint series_get (s : Series) (label : nat) : option Q :=
  match s with
  | [] => None
  | (l, v) :: s' => if Nat.eqb l label then Some v else series_get s' label
  end.

Definition set_Swing_High (r : row) (v : option Q) : row :=
  mkRow (Date r) (Open r) (High r) (Low r) (Close r) v (Swing_Low r).

Definition set_Swing_Low (r : row) (v : option Q) : row :=
  mkRow (Date r) (Open r) (High r) (Low r) (Close r) (Swing_High r) v.

(** [df[col] = series]: aligned on the index, rows without a value get NaN. *)
Fixpoint assign_from (set : row -> option Q -> row) (k : nat)
    (df : DataFrame) (s : Series) : DataFrame :=
  match df with
  | [] => []
  | r :: df' => set r (series_get s k) :: assign_from set (S k) df' s
  end.

Definition assign (set : row -> option Q -> row) (df : DataFrame)
    (s : Series) : DataFrame := assign_from set 0 df s.

(** [series.dropna().values] *)
Fixpoint dropna (col : list (option Q)) : list Q :=
  match col with
  | [] => []
  | Some v :: col' => v :: dropna col'
  | None :: col' => dropna col'
  end.

(** ** find_swing_points *)

Definition find_swing_points (df : DataFrame) (order : Z)
    : result DataFrame :=
  highs <- argrelextrema (map High df) Np.greater_equal order ;;
  let df := assign set_Swing_High df (iloc_column High df highs) in
  lows <- argrelextrema (map Low df) Np.less_equal order ;;
  let df := assign set_Swing_Low df (iloc_column Low df lows) in
  ret df.

(** The default [order=5]. *)
Definition default_order : Z := 5.

(** ** calculate_liquidation_zones *)

Record zone : Type := mkZone {
  Price : Q;
  Type_ : string;
  Strength : Z
}.

Definition long_zone (price : Q) (lev : string) : result zone :=
  lev_val <- py_int (str_replace "x" "" lev) ;;
  inv <- true_div 1 lev_val ;;
  let liq_price := (price - (price * inv))%Q in
  ret (mkZone liq_price "Long Liq" lev_val).

Definition short_zone (price : Q) (lev : string) : result zone :=
  lev_val <- py_int (str_replace "x" "" lev) ;;
  inv <- true_div 1 lev_val ;;
  let liq_price := (price + (price * inv))%Q in
  ret (mkZone liq_price "Short Liq" lev_val).

Definition calculate_liquidation_zones (df : DataFrame)
    (leverages : list string) : result (list zone) :=
  let zones := [] in
  let swing_lows := dropna (map Swing_Low df) in
  zones <- for_each swing_lows (fun price =>
             for_each leverages (fun lev zones =>
               z <- long_zone price lev ;;
               ret (zones ++ [z]))) zones ;;
  let swing_highs := dropna (map Swing_High df) in
  zones <- for_each swing_highs (fun price =>
             for_each leverages (fun lev zones =>
               z <- short_zone price lev ;;
               ret (zones ++ [z]))) zones ;;
  ret zones.

(** ** The display band of the main block *)

(** [(liq_df['Price'] > lo) & (liq_df['Price'] < hi)], with
    [lo = current_price * lower] and [hi = current_price * upper]. *)
Definition range_mask (liq_df : list zone) (current_price lower upper : Q)
    : list bool :=
  Np.and_arr
    (map (fun z => Np.greater (Price z) (current_price * lower)) liq_df)
    (map (fun z => Np.less (Price z) (current_price * upper)) liq_df).

(** [liq_df[mask]] *)
Fixpoint boolean_index {A : Type} (df : list A) (mask : list bool) : list A :=
  match df, mask with
  | r :: df', b :: mask' =>
      if b then r :: boolean_index df' mask' else boolean_index df' mask'
  | _, _ => []
  end.

(** The [if not liq_df.empty: ... else: ...] statement, for any two band
    ratios. *)
Definition filter_near_current (liq_df : list zone)
    (current_price lower upper : Q) : list zone :=
  match liq_df with
  | _ :: _ =>
      boolean_index liq_df (range_mask liq_df current_price lower upper)
  | [] => liq_df
  end.

(** The band the program uses. *)
Definition liq_df_filtered (liq_df : list zone) (current_price : Q)
    : list zone :=
  filter_near_current liq_df current_price 0.85 1.15.

(** ** The main block *)

(** [col.iloc[-1]] *)
Definition iloc_last (col : list Q) : result Q :=
  match rev col with
  | [] => raise IndexError
  | v :: _ => ret v
  end.

(** The analysis behind the button: [None] is the branch that reports
    "Could not fetch data."; otherwise the zones that are drawn. *)
Definition generate_heatmap (df : DataFrame) (leverage_tiers : list string)
    : result (option (list zone)) :=
  match df with
  | [] => ret None
  | _ :: _ =>
      df <- find_swing_points df default_order ;;
      liq_df <- calculate_liquidation_zones df leverage_tiers ;;
      current_price <- iloc_last (map Close df) ;;
      ret (Some (liq_df_filtered liq_df current_price))
  end.

(** ** The sidebar and the drawing loop *)





(** ** Notions used by the statements *)

(** The integer a tier string stands for: what [int(lev.replace('x', ''))]
    returns. *)
Definition tier_value (lev : string) (L : Z) : Prop :=
  py_int (str_replace "x" "" lev) = inr L.

(** A tier the projector accepts: it parses, and not to 0. *)
Definition usable_tier (lev : string) (L : Z) : Prop :=
  tier_value lev L /\ L <> 0.

(** The zone the loops append for a swing price and a tier value. *)
Definition long_of (price : Q) (L : Z) : zone :=
  mkZone (price - price * (inject_Z 1 / inject_Z L))%Q "Long Liq" L.

Definition short_of (price : Q) (L : Z) : zone :=
  mkZone (price + price * (inject_Z 1 / inject_Z L))%Q "Short Liq" L.

(** The swing prices the aggregator reads off the frame. *)
Definition swing_lows (df : DataFrame) : list Q := dropna (map Swing_Low df).
Definition swing_highs (df : DataFrame) : list Q := dropna (map Swing_High df).


(** Running a fallible function over a list, collecting the results. *)
Fixpoint mapM {A B : Type} (f : A -> result B) (xs : list A)
    : result (list B) :=
  match xs with
  | [] => ret []
  | x :: xs' => y <- f x ;; ys <- mapM f xs' ;; ret (y :: ys)
  end.

(** [l1] is [l2] with some elements left out, the others in place. *)
Inductive subseq {A : Type} : list A -> list A -> Prop :=
| subseq_nil : subseq [] []
| subseq_skip : forall x l1 l2, subseq l1 l2 -> subseq l1 (x :: l2)
| subseq_keep : forall x l1 l2, subseq l1 l2 -> subseq (x :: l1) (x :: l2).

(** The filter of the spec: keep the zones strictly inside the band. *)
Definition in_band (current_price lower upper : Q) (z : zone) : Prop :=
  (current_price * lower < Price z /\ Price z < current_price * upper)%Q.

(** The swing rule of the spec: the bar [r] at index [i] has a high at least
    (a low at most) that of every bar whose index lies in [i-w, i+w]; the
    indices outside the series do not count. *)
Definition window_max (df : DataFrame) (w : Z) (i : nat) (r : row) : Prop :=
  forall j rj,
    Z.of_nat i - w <= Z.of_nat j <= Z.of_nat i + w ->
    nth_error df j = Some rj -> (High rj <= High r)%Q.

Definition window_min (df : DataFrame) (w : Z) (i : nat) (r : row) : Prop :=
  forall j rj,
    Z.of_nat i - w <= Z.of_nat j <= Z.of_nat i + w ->
    nth_error df j = Some rj -> (Low r <= Low rj)%Q.

(** The rows of both frames agree on the columns of the data source. *)
Definition same_bar (r r' : row) : Prop :=
  Date r' = Date r /\ Open r' = Open r /\ High r' = High r
  /\ Low r' = Low r /\ Close r' = Close r.

(** The swing markers among the [k] rows from position [a] on. *)
Definition high_markers (df : DataFrame) (a k : nat) : list Q :=
  dropna (map Swing_High (firstn k (skipn a df))).

Definition low_markers (df : DataFrame) (a k : nat) : list Q :=
  dropna (map Swing_Low (firstn k (skipn a df))).

(** A frame as the data source delivers it, from (high, low) pairs. *)
Definition bar (high low : Q) : row :=
  mkRow 0 low high low low None None.

(** The bars of the spec's scenario (lows 100, 95, 90, 95, 100), and the
    frame [find_swing_points] makes of them with [order=1]. *)
Definition scenario_bars : DataFrame :=
  [bar 101 100; bar 96 95; bar 91 90; bar 96 95; bar 101 100].

Definition scenario_df : DataFrame :=
  match find_swing_points scenario_bars 1 with
  | inr df => df
  | inl _ => []
  end.

(** ** The loops of the aggregator *)

Section Loops.

Context {A B : Type}.

Lemma for_each_append (f : A -> result B) (xs : list A) (s : list B) :
  for_each xs (fun x s => z <- f x ;; ret (s ++ [z])) s
  = (ys <- mapM f xs ;; ret (s ++ ys)).
Proof.
  revert s. induction xs as [|x xs IH]; intros s; simpl.
  - now rewrite app_nil_r.
  - destruct (f x) as [e|y]; simpl; [reflexivity|].
    rewrite IH. destruct (mapM f xs) as [e|ys]; simpl; [reflexivity|].
    now rewrite <- app_assoc.
Qed.

Lemma mapM_Forall2 (f : A -> result B) (xs : list A) (ys : list B) :
  mapM f xs = inr ys <-> Forall2 (fun x y => f x = inr y) xs ys.
Proof.
  revert ys. induction xs as [|x xs IH]; intros ys; simpl.
  - split.
    + intros H. injection H as <-. constructor.
    + intros H. inversion H. reflexivity.
  - split.
    + destruct (f x) as [e|y] eqn:Hx; simpl; [discriminate|].
      destruct (mapM f xs) as [e|ys'] eqn:Hxs; simpl; [discriminate|].
      intros H. injection H as <-. constructor; [exact Hx|]. now apply IH.
    + intros H. inversion H as [|x' y xs' ys' Hx Hxs]; subst.
      rewrite Hx. simpl. apply IH in Hxs. rewrite Hxs. reflexivity.
Qed.

Lemma mapM_length (f : A -> result B) (xs : list A) (ys : list B) :
  mapM f xs = inr ys -> length ys = length xs.
Proof.
  intros H. apply mapM_Forall2 in H. symmetry. exact (Forall2_length H).
Qed.

Lemma mapM_total (f : A -> result B) (g : A -> B) (xs : list A) :
  Forall (fun x => f x = inr (g x)) xs -> mapM f xs = inr (map g xs).
Proof.
  induction 1 as [|x xs Hx _ IH]; simpl; [reflexivity|].
  rewrite Hx. simpl. rewrite IH. reflexivity.
Qed.

End Loops.

Lemma for_each_nested {P A B : Type} (f : P -> A -> result B)
    (ps : list P) (xs : list A) (s : list B) :
  for_each ps (fun p => for_each xs (fun x s => z <- f p x ;; ret (s ++ [z]))) s
  = (yss <- mapM (fun p => mapM (f p) xs) ps ;; ret (s ++ concat yss)).
Proof.
  revert s. induction ps as [|p ps IH]; intros s; simpl.
  - now rewrite app_nil_r.
  - rewrite for_each_append.
    destruct (mapM (f p) xs) as [e|ys]; simpl; [reflexivity|].
    rewrite IH.
    destruct (mapM (fun p0 => mapM (f p0) xs) ps) as [e|yss]; simpl;
      [reflexivity|].
    now rewrite <- app_assoc.
Qed.

(** The aggregator as two nested traversals. *)
Lemma calculate_liquidation_zones_eq (df : DataFrame) (leverages : list string) :
  calculate_liquidation_zones df leverages
  = (ls <- mapM (fun p => mapM (long_zone p) leverages) (swing_lows df) ;;
     hs <- mapM (fun p => mapM (short_zone p) leverages) (swing_highs df) ;;
     ret (concat ls ++ concat hs)).
Proof.
  unfold calculate_liquidation_zones. rewrite for_each_nested.
  fold (swing_lows df).
  destruct (mapM (fun p => mapM (long_zone p) leverages) (swing_lows df))
    as [e|ls]; simpl; [reflexivity|].
  rewrite for_each_nested. fold (swing_highs df).
  destruct (mapM (fun p => mapM (short_zone p) leverages) (swing_highs df))
    as [e|hs]; simpl; reflexivity.
Qed.

(** ** The projector *)

Lemma inject_Z_pos (L : Z) : 0 < L -> (0 < inject_Z L)%Q.
Proof. intros H. change 0%Q with (inject_Z 0). now rewrite <- Zlt_Qlt. Qed.

Lemma margin_pos (p : Q) (L : Z) :
  (0 < p)%Q -> 0 < L -> (0 < p * (inject_Z 1 / inject_Z L))%Q.
Proof.
  intros Hp HL. apply Qmult_lt_0_compat; [exact Hp|].
  unfold Qdiv. rewrite Qmult_1_l. apply Qinv_lt_0_compat.
  now apply inject_Z_pos.
Qed.

Lemma long_zone_inv (price : Q) (lev : string) (z : zone) :
  long_zone price lev = inr z ->
  exists L, tier_value lev L /\ L <> 0 /\ z = long_of price L.
Proof.
  unfold long_zone, tier_value, true_div.
  destruct (py_int (str_replace "x" "" lev)) as [e|L]; simpl; [discriminate|].
  destruct (Z.eqb_spec L 0) as [->|HL]; simpl; [discriminate|].
  intros H. injection H as <-. exists L. repeat split; assumption.
Qed.

Lemma short_zone_inv (price : Q) (lev : string) (z : zone) :
  short_zone price lev = inr z ->
  exists L, tier_value lev L /\ L <> 0 /\ z = short_of price L.
Proof.
  unfold short_zone, tier_value, true_div.
  destruct (py_int (str_replace "x" "" lev)) as [e|L]; simpl; [discriminate|].
  destruct (Z.eqb_spec L 0) as [->|HL]; simpl; [discriminate|].
  intros H. injection H as <-. exists L. repeat split; assumption.
Qed.

Lemma long_zone_usable (price : Q) (lev : string) (L : Z) :
  usable_tier lev L -> long_zone price lev = inr (long_of price L).
Proof.
  intros [Hv HL]. unfold long_zone, true_div. rewrite Hv. simpl.
  destruct (Z.eqb_spec L 0); [contradiction|reflexivity].
Qed.

Lemma short_zone_usable (price : Q) (lev : string) (L : Z) :
  usable_tier lev L -> short_zone price lev = inr (short_of price L).
Proof.
  intros [Hv HL]. unfold short_zone, true_div. rewrite Hv. simpl.
  destruct (Z.eqb_spec L 0); [contradiction|reflexivity].
Qed.







(** ** The aggregator *)


Lemma tiers_long (p : Q) (leverages : list string) (tiers : list Z) :
  Forall2 usable_tier leverages tiers ->
  mapM (long_zone p) leverages = inr (map (long_of p) tiers).
Proof.
  intros H. apply mapM_Forall2.
  induction H as [|lev L levs tiers HL _ IH]; simpl; constructor;
    [now apply long_zone_usable|exact IH].
Qed.

Lemma tiers_short (p : Q) (leverages : list string) (tiers : list Z) :
  Forall2 usable_tier leverages tiers ->
  mapM (short_zone p) leverages = inr (map (short_of p) tiers).
Proof.
  intros H. apply mapM_Forall2.
  induction H as [|lev L levs tiers HL _ IH]; simpl; constructor;
    [now apply short_zone_usable|exact IH].
Qed.

(** With usable tiers the aggregator returns, and this is its value. *)
Lemma calculate_liquidation_zones_usable (df : DataFrame)
    (leverages : list string) (tiers : list Z) :
  Forall2 usable_tier leverages tiers ->
  calculate_liquidation_zones df leverages
  = inr (flat_map (fun p => map (long_of p) tiers) (swing_lows df)
         ++ flat_map (fun p => map (short_of p) tiers) (swing_highs df)).
Proof.
  intros H. rewrite calculate_liquidation_zones_eq.
  rewrite (mapM_total _ (fun p => map (long_of p) tiers)).
  2:{ apply Forall_forall. intros p _. now apply tiers_long. }
  simpl.
  rewrite (mapM_total _ (fun p => map (short_of p) tiers)).
  2:{ apply Forall_forall. intros p _. now apply tiers_short. }
  simpl. now rewrite <- !flat_map_concat_map.
Qed.

Lemma flat_map_length_const {A B : Type} (f : A -> list B) (n : nat)
    (l : list A) :
  (forall x, length (f x) = n) -> length (flat_map f l) = (length l * n)%nat.
Proof.
  intros H. induction l as [|x l IH]; simpl; [reflexivity|].
  rewrite length_app, H, IH. reflexivity.
Qed.

Lemma filter_all {A : Type} (f : A -> bool) (l : list A) :
  (forall x, In x l -> f x = true) -> filter f l = l.
Proof.
  induction l as [|x l IH]; intros H; simpl; [reflexivity|].
  rewrite (H x (or_introl eq_refl)). f_equal. apply IH.
  intros y Hy. apply H. now right.
Qed.

Lemma filter_none {A : Type} (f : A -> bool) (l : list A) :
  (forall x, In x l -> f x = false) -> filter f l = [].
Proof.
  induction l as [|x l IH]; intros H; simpl; [reflexivity|].
  rewrite (H x (or_introl eq_refl)). apply IH.
  intros y Hy. apply H. now right.
Qed.




Lemma nth_error_flat_map_tiers {A : Type} (g : Q -> Z -> A) (tiers : list Z)
    (ps : list Q) (i j : nat) (p : Q) (L : Z) :
  nth_error ps i = Some p -> nth_error tiers j = Some L ->
  nth_error (flat_map (fun p => map (g p) tiers) ps) (i * length tiers + j)
  = Some (g p L).
Proof.
  intros Hp HL.
  assert (Hj : (j < length tiers)%nat).
  { apply nth_error_Some. rewrite HL. discriminate. }
  revert i Hp. induction ps as [|q ps IH]; intros [|i] Hp; simpl in *;
    try discriminate.
  - injection Hp as ->. rewrite nth_error_app1 by (rewrite length_map; lia).
    rewrite nth_error_map, HL. reflexivity.
  - rewrite nth_error_app2 by (rewrite length_map; lia).
    rewrite length_map.
    replace (length tiers + i * length tiers + j - length tiers)%nat
      with (i * length tiers + j)%nat by lia.
    now apply IH.
Qed.

(** C10. With usable tiers, the aggregator's output has a fixed order: first
    the long liquidations, then the short ones; on each side the zones of
    one swing point are adjacent, the swing points come in the order of the
    rows of the frame, and inside a swing point's group the tiers come in
    the order the caller gave them.  So zone number [i * #tiers + j] is the
    long liquidation of Low swing [i] at tier [j], and zone number
    [#Low * #tiers + i * #tiers + j] the short liquidation of High swing [i]
    at tier [j]. *)
Theorem aggregator_order (df : DataFrame) (leverages : list string)
    (tiers : list Z) :
  Forall2 usable_tier leverages tiers ->
  exists zones,
    calculate_liquidation_zones df leverages = inr zones
    /\ zones
       = flat_map (fun p => map (long_of p) tiers) (swing_lows df)
         ++ flat_map (fun p => map (short_of p) tiers) (swing_highs df)
    /\ (forall i j p L,
          nth_error (swing_lows df) i = Some p ->
          nth_error tiers j = Some L ->
          nth_error zones (i * length tiers + j) = Some (long_of p L))
    /\ (forall i j p L,
          nth_error (swing_highs df) i = Some p ->
          nth_error tiers j = Some L ->
          nth_error zones
            (length (swing_lows df) * length tiers + (i * length tiers + j))
          = Some (short_of p L)).
Proof.
  intros Ht. eexists. split; [|split; [reflexivity|split]].
  - now apply calculate_liquidation_zones_usable.
  - intros i j p L Hp HL.
    assert (Hi : (i < length (swing_lows df))%nat).
    { apply nth_error_Some. rewrite Hp. discriminate. }
    assert (Hj : (j < length tiers)%nat).
    { apply nth_error_Some. rewrite HL. discriminate. }
    rewrite nth_error_app1.
    + now apply nth_error_flat_map_tiers.
    + rewrite (flat_map_length_const _ (length tiers))
        by (intros q; apply length_map). nia.
  - intros i j p L Hp HL.
    rewrite nth_error_app2;
      rewrite (flat_map_length_const _ (length tiers))
        by (intros q; apply length_map); [|lia].
    replace (length (swing_lows df) * length tiers + (i * length tiers + j)
             - length (swing_lows df) * length tiers)%nat
      with (i * length tiers + j)%nat by lia.
    now apply nth_error_flat_map_tiers.
Qed.

Lemma aggregator_order_witness :
  exists zones,
    calculate_liquidation_zones scenario_df ["10x"; "50x"]%string = inr zones
    /\ nth_error zones 1 = Some (long_of 90 50)
    /\ nth_error zones 4 = Some (short_of 101 10).
Proof.
  destruct (aggregator_order scenario_df ["10x"; "50x"]%string [10; 50])
    as (zones & Hz & _ & Hl & Hs).
  - repeat constructor; discriminate.
  - exists zones. split; [exact Hz|]. split.
    + exact (Hl 0%nat 1%nat 90%Q 50 eq_refl eq_refl).
    + exact (Hs 1%nat 0%nat 101%Q 10 eq_refl eq_refl).
Defined.

Lemma in_dropna (col : row -> option Q) (df : DataFrame) (s : Q) :
  In s (dropna (map col df)) -> exists r, In r df /\ col r = Some s.
Proof.
  induction df as [|r df IH]; simpl; [contradiction|].
  destruct (col r) as [v|] eqn:Hv; simpl.
  - intros [->|H].
    + exists r. split; [now left|exact Hv].
    + destruct (IH H) as (r' & Hr' & Hc). exists r'. split; [now right|exact Hc].
  - intros H. destruct (IH H) as (r' & Hr' & Hc).
    exists r'. split; [now right|exact Hc].
Qed.

Lemma Forall2_In_r {A B : Type} (R : A -> B -> Prop) (xs : list A)
    (ys : list B) (y : B) :
  Forall2 R xs ys -> In y ys -> exists x, In x xs /\ R x y.
Proof.
  induction 1 as [|x y' xs ys Hxy _ IH]; simpl; [contradiction|].
  intros [->|Hy].
  - exists x. split; [now left|exact Hxy].
  - destruct (IH Hy) as (x' & Hx' & HR). exists x'. split; [now right|exact HR].
Qed.

(** Where a zone of the aggregate comes from. *)
Lemma zone_origin (df : DataFrame) (leverages : list string)
    (zones : list zone) (z : zone) :
  calculate_liquidation_zones df leverages = inr zones -> In z zones ->
  (exists p lev, In p (swing_lows df) /\ In lev leverages
                 /\ long_zone p lev = inr z)
  \/ (exists p lev, In p (swing_highs df) /\ In lev leverages
                    /\ short_zone p lev = inr z).
Proof.
  rewrite calculate_liquidation_zones_eq.
  destruct (mapM (fun p => mapM (long_zone p) leverages) (swing_lows df))
    as [e|ls] eqn:Hls; simpl; [discriminate|].
  destruct (mapM (fun p => mapM (short_zone p) leverages) (swing_highs df))
    as [e|hs] eqn:Hhs; simpl; [discriminate|].
  intros H Hz. injection H as <-.
  apply mapM_Forall2 in Hls. apply mapM_Forall2 in Hhs.
  apply in_app_or in Hz. destruct Hz as [Hz|Hz]; [left|right];
    apply in_concat in Hz; destruct Hz as (l & Hl & Hz).
  - destruct (Forall2_In_r _ _ _ _ Hls Hl) as (p & Hp & Hm).
    apply mapM_Forall2 in Hm.
    destruct (Forall2_In_r _ _ _ _ Hm Hz) as (lev & Hlev & Hlz).
    now exists p, lev.
  - destruct (Forall2_In_r _ _ _ _ Hhs Hl) as (p & Hp & Hm).
    apply mapM_Forall2 in Hm.
    destruct (Forall2_In_r _ _ _ _ Hm Hz) as (lev & Hlev & Hsz).
    now exists p, lev.
Qed.




(** ** The display band *)

Lemma greater_iff (x y : Q) : Np.greater x y = true <-> (y < x)%Q.
Proof.
  unfold Np.greater. rewrite negb_true_iff, <- not_true_iff_false.
  rewrite Qle_bool_iff. split.
  - apply Qnot_le_lt.
  - apply Qlt_not_le.
Qed.

Lemma less_iff (x y : Q) : Np.less x y = true <-> (x < y)%Q.
Proof.
  unfold Np.less. rewrite negb_true_iff, <- not_true_iff_false.
  rewrite Qle_bool_iff. split.
  - apply Qnot_le_lt.
  - apply Qlt_not_le.
Qed.

Lemma boolean_index_masks {A : Type} (g h : A -> bool) (df : list A) :
  boolean_index df (Np.and_arr (map g df) (map h df))
  = filter (fun r => g r && h r) df.
Proof.
  induction df as [|r df IH]; simpl; [reflexivity|].
  unfold Np.and_arr in IH. rewrite IH. reflexivity.
Qed.

(** The band filter is a [filter], whatever decides the band. *)
Lemma filter_near_current_filter (Z : list zone) (p a b : Q)
    (f : zone -> bool) :
  (forall z, f z = true <-> in_band p a b z) ->
  filter_near_current Z p a b = filter f Z.
Proof.
  intros Hf.
  assert (E : filter_near_current Z p a b
              = boolean_index Z (range_mask Z p a b)).
  { destruct Z; reflexivity. }
  rewrite E. unfold range_mask. rewrite boolean_index_masks.
  apply filter_ext. intros z.
  apply eq_true_iff_eq. rewrite andb_true_iff, greater_iff, less_iff.
  symmetry. apply Hf.
Qed.

Lemma in_band_decidable (p a b : Q) :
  exists f : zone -> bool, forall z, f z = true <-> in_band p a b z.
Proof.
  exists (fun z => Np.greater (Price z) (p * a) && Np.less (Price z) (p * b)).
  intros z. rewrite andb_true_iff, greater_iff, less_iff. reflexivity.
Qed.

Lemma filter_subseq {A : Type} (f : A -> bool) (l : list A) :
  subseq (filter f l) l.
Proof.
  induction l as [|x l IH]; simpl; [constructor|].
  destruct (f x); now constructor.
Qed.

Lemma filter_idempotent {A : Type} (f : A -> bool) (l : list A) :
  filter f (filter f l) = filter f l.
Proof.
  apply filter_all. intros x Hx. apply filter_In in Hx. apply Hx.
Qed.

(** C5. For a zone collection [Z], a current price [p > 0] and ratios
    [a < b], the band filter keeps exactly the zones whose price is strictly
    above [p * a] and strictly below [p * b]: it is the order-preserving
    filter of [Z] by that test, so a zone is in the result iff it is in [Z]
    and in the band, and the result is [Z] with some zones left out, the
    others unchanged and in place. *)
Theorem filter_near_current_retains (Z : list zone) (p a b : Q) :
  (0 < p)%Q -> (a < b)%Q ->
  (forall f : zone -> bool,
      (forall z, f z = true <-> in_band p a b z) ->
      filter_near_current Z p a b = filter f Z)
  /\ (forall z, In z (filter_near_current Z p a b)
                <-> In z Z /\ in_band p a b z)
  /\ subseq (filter_near_current Z p a b) Z.
Proof.
  intros _ _.
  split; [intros f Hf; now apply filter_near_current_filter|].
  destruct (in_band_decidable p a b) as [f Hf].
  rewrite (filter_near_current_filter Z p a b f Hf). split.
  - intros z. rewrite filter_In, Hf. reflexivity.
  - apply filter_subseq.
Qed.

Lemma filter_near_current_retains_witness :
  (forall z, In z (filter_near_current
                     [long_of 90 10; long_of 90 50; short_of 101 10]
                     95 0.85 1.15)
             <-> In z [long_of 90 10; long_of 90 50; short_of 101 10]
                 /\ in_band 95 0.85 1.15 z)
  /\ filter_near_current [long_of 90 10; long_of 90 50; short_of 101 10]
       95 0.85 1.15
     = [long_of 90 10; long_of 90 50].
Proof.
  split; [|reflexivity].
  apply (filter_near_current_retains
           [long_of 90 10; long_of 90 50; short_of 101 10] 95 0.85 1.15);
    reflexivity.
Defined.

(** C6. Filtering twice with the same current price and ratios is
    filtering once. *)
Theorem filter_near_current_idempotent (Z : list zone) (p a b : Q) :
  filter_near_current (filter_near_current Z p a b) p a b
  = filter_near_current Z p a b.
Proof.
  destruct (in_band_decidable p a b) as [f Hf].
  rewrite !(filter_near_current_filter _ p a b f Hf).
  apply filter_idempotent.
Qed.

(** ** The extrema detector *)

Lemma in_arange (a b s : Z) : In s (Np.arange a b) <-> a <= s < b.
Proof.
  unfold Np.arange. rewrite in_map_iff. split.
  - intros (k & <- & Hk). apply in_seq in Hk. lia.
  - intros H. exists (Z.to_nat (s - a)). split; [lia|].
    apply in_seq. lia.
Qed.

Lemma map2_map {A B C D : Type} (f : B -> C -> D) (g : A -> B) (h : A -> C)
    (l : list A) :
  Np.map2 f (map g l) (map h l) = map (fun x => f (g x) (h x)) l.
Proof. induction l as [|x l IH]; simpl; [reflexivity|now rewrite IH]. Qed.

Lemma any_false (a : list bool) (b : bool) :
  Np.any a = false -> In b a -> b = false.
Proof.
  unfold Np.any. intros H Hb. destruct b; [|reflexivity].
  rewrite <- H. symmetry. apply existsb_exists. now exists true.
Qed.

Lemma repeat_map_seq {A : Type} (x : A) (n s : nat) :
  repeat x n = map (fun _ : nat => x) (seq s n).
Proof.
  revert s. induction n as [|n IH]; intros s; simpl;
    [reflexivity|now rewrite (IH (S s))].
Qed.

Section Relextrema.

Variable comparator : Q -> Q -> bool.
Variable data : list Q.

(** The element [take] reads at index [i] under [mode='clip']. *)
Let d (i : Z) : Q := nth (Np.clip_index (length data) i) data 0%Q.

(** The two tests the loop makes on position [k] for one shift. *)
Let ok (k : nat) (shift : Z) : bool :=
  comparator (d (0 + Z.of_nat k)) (d (0 + Z.of_nat k + shift))
  && comparator (d (0 + Z.of_nat k)) (d (0 + Z.of_nat k - shift)).

Lemma take_clip_map (g : nat -> Z) (ks : list nat) :
  Np.take_clip data (map g ks) = map (fun k => d (g k)) ks.
Proof. unfold Np.take_clip. now rewrite map_map. Qed.

Lemma relextrema_loop_spec (ks : list nat) (shifts : list Z)
    (r : nat -> bool) :
  relextrema_loop comparator data
    (map (fun k => d (0 + Z.of_nat k)) ks)
    (map (fun k => 0 + Z.of_nat k) ks) shifts (map r ks)
  = map (fun k => r k && forallb (ok k) shifts) ks.
Proof.
  revert r. induction shifts as [|shift shifts IH]; intros r.
  - simpl. apply map_ext. intros k. now rewrite andb_true_r.
  - cbn [relextrema_loop]. rewrite !map_map, !take_clip_map.
    unfold Np.and_arr. rewrite !map2_map.
    destruct (Np.any _) eqn:Hany; cbn [negb].
    + rewrite IH. apply map_ext. intros k. unfold ok.
      cbn [forallb]. now rewrite !andb_assoc.
    + apply map_ext_in. intros k Hk.
      assert (E : r k
                  && comparator (d (0 + Z.of_nat k)) (d (0 + Z.of_nat k + shift))
                  && comparator (d (0 + Z.of_nat k)) (d (0 + Z.of_nat k - shift))
                  = false).
      { apply (any_false _ _ Hany). apply in_map_iff.
        exists k. split; [reflexivity|exact Hk]. }
      rewrite E. unfold ok. cbn [forallb].
      rewrite !andb_assoc, E. reflexivity.
Qed.

Lemma boolrelextrema_spec (order : Z) :
  1 <= order ->
  boolrelextrema data comparator order
  = inr (map (fun k => forallb (ok k) (Np.arange 1 (order + 1)))
           (seq 0 (length data))).
Proof.
  intros Ho. unfold boolrelextrema.
  destruct (Z.ltb_spec order 1) as [H|_]; [lia|].
  unfold ret. f_equal.
  assert (El : Np.arange 0 (Z.of_nat (length data))
               = map (fun k => 0 + Z.of_nat k) (seq 0 (length data))).
  { unfold Np.arange. now rewrite Z.sub_0_r, Nat2Z.id. }
  assert (Er : repeat true (length data)
               = map (fun _ : nat => true) (seq 0 (length data))).
  { apply repeat_map_seq. }
  rewrite El, Er, take_clip_map. apply relextrema_loop_spec.
Qed.

Hypothesis comparator_refl : forall x, comparator x x = true.

(** A position survives all shifts iff it wins against its whole clipped
    neighbourhood. *)
Lemma survives_iff_window (order : Z) (i : nat) :
  (i < length data)%nat ->
  forallb (ok i) (Np.arange 1 (order + 1)) = true
  <-> (forall j, Z.of_nat i - order <= Z.of_nat j <= Z.of_nat i + order ->
                 (j < length data)%nat ->
                 comparator (nth i data 0%Q) (nth j data 0%Q) = true).
Proof.
  intros Hi.
  assert (Ed : forall j : nat, (j < length data)%nat ->
                               d (Z.of_nat j) = nth j data 0%Q).
  { intros j Hj. unfold d, Np.clip_index. f_equal. lia. }
  rewrite forallb_forall. split.
  - intros H j Hw Hj.
    destruct (Nat.lt_trichotomy j i) as [Hlt|[->|Hgt]].
    + assert (Hs : In (Z.of_nat i - Z.of_nat j) (Np.arange 1 (order + 1)))
        by (apply in_arange; lia).
      apply H in Hs. unfold ok in Hs. apply andb_true_iff in Hs.
      destruct Hs as [_ Hs].
      replace (0 + Z.of_nat i - (Z.of_nat i - Z.of_nat j)) with (Z.of_nat j)
        in Hs by lia.
      now rewrite Z.add_0_l, !Ed in Hs.
    + apply comparator_refl.
    + assert (Hs : In (Z.of_nat j - Z.of_nat i) (Np.arange 1 (order + 1)))
        by (apply in_arange; lia).
      apply H in Hs. unfold ok in Hs. apply andb_true_iff in Hs.
      destruct Hs as [Hs _].
      replace (0 + Z.of_nat i + (Z.of_nat j - Z.of_nat i)) with (Z.of_nat j)
        in Hs by lia.
      now rewrite Z.add_0_l, !Ed in Hs.
  - intros H s Hs. apply in_arange in Hs. unfold ok.
    rewrite Z.add_0_l, (Ed i Hi). apply andb_true_iff. split.
    + unfold d. apply H; unfold Np.clip_index; lia.
    + unfold d. apply H; unfold Np.clip_index; lia.
Qed.

End Relextrema.

Lemma nth_map_seq {A : Type} (f : nat -> A) (n i : nat) (b : A) :
  (i < n)%nat -> nth i (map f (seq 0 n)) b = f i.
Proof.
  intros Hi. rewrite (nth_indep _ b (f 0%nat))
    by (now rewrite length_map, length_seq).
  rewrite map_nth, seq_nth by exact Hi. reflexivity.
Qed.

(** What [_boolrelextrema] returns, position by position. *)
Lemma boolrelextrema_pointwise (comparator : Q -> Q -> bool) (data : list Q)
    (order : Z) :
  (forall x, comparator x x = true) -> 1 <= order ->
  exists res,
    boolrelextrema data comparator order = inr res
    /\ length res = length data
    /\ forall i, (i < length data)%nat ->
         (nth i res false = true
          <-> forall j,
                Z.of_nat i - order <= Z.of_nat j <= Z.of_nat i + order ->
                (j < length data)%nat ->
                comparator (nth i data 0%Q) (nth j data 0%Q) = true).
Proof.
  intros Hrefl Ho. eexists. split; [now apply boolrelextrema_spec|]. split.
  - now rewrite length_map, length_seq.
  - intros i Hi. rewrite nth_map_seq by exact Hi.
    now apply survives_iff_window.
Qed.

Lemma in_nonzero_from (a : list bool) (k i : nat) :
  In i (Np.nonzero_from k a) <-> (k <= i)%nat /\ nth (i - k) a false = true.
Proof.
  revert k. induction a as [|b a IH]; intros k; simpl.
  - split; [contradiction|]. intros [_ H]. destruct (i - k)%nat; discriminate.
  - assert (Hrec : In i (Np.nonzero_from (S k) a)
                   <-> (k < i)%nat /\ nth (i - k) (b :: a) false = true).
    { rewrite IH. split; intros [Hk H]; (split; [lia|]).
      - replace (i - k)%nat with (S (i - S k)) by lia. exact H.
      - replace (i - k)%nat with (S (i - S k)) in H by lia. exact H. }
    destruct b; simpl; rewrite Hrec; clear Hrec IH.
    + split.
      * intros [->|[Hk H]]; [|split; [lia|exact H]].
        rewrite Nat.sub_diag. split; [lia|reflexivity].
      * intros [Hk H]. destruct (Nat.eq_dec k i) as [E|N]; [now left|right].
        split; [lia|exact H].
    + split.
      * intros [Hk H]. split; [lia|exact H].
      * intros [Hk H]. split; [|exact H].
        destruct (Nat.eq_dec k i) as [->|N]; [|lia].
        rewrite Nat.sub_diag in H. discriminate.
Qed.

Lemma series_get_iloc (col : row -> Q) (df : DataFrame) (ps : list nat)
    (i : nat) :
  series_get (iloc_column col df ps) i
  = if existsb (fun p => Nat.eqb p i) ps
    then option_map col (nth_error df i)
    else None.
Proof.
  induction ps as [|p ps IH]; simpl; [reflexivity|].
  destruct (Nat.eqb_spec p i) as [->|N]; simpl.
  - destruct (nth_error df i) as [r|]; simpl.
    + now rewrite Nat.eqb_refl.
    + rewrite IH. now destruct (existsb _ ps).
  - destruct (nth_error df p) as [r|]; simpl; [|exact IH].
    destruct (Nat.eqb_spec p i); [contradiction|exact IH].
Qed.

(** The value assigned to row [i] of a swing column. *)
Lemma series_get_marked (col : row -> Q) (df : DataFrame) (res : list bool)
    (i : nat) :
  series_get (iloc_column col df (Np.nonzero res)) i
  = if nth i res false then option_map col (nth_error df i) else None.
Proof.
  rewrite series_get_iloc.
  replace (existsb (fun p => Nat.eqb p i) (Np.nonzero res))
    with (nth i res false); [reflexivity|].
  apply eq_true_iff_eq. rewrite existsb_exists. unfold Np.nonzero. split.
  - intros H. exists i. split; [|apply Nat.eqb_refl].
    apply in_nonzero_from. rewrite Nat.sub_0_r. split; [lia|exact H].
  - intros (p & Hp & E). apply Nat.eqb_eq in E. subst p.
    apply in_nonzero_from in Hp. now rewrite Nat.sub_0_r in Hp.
Qed.

Lemma nth_error_assign_from (set : row -> option Q -> row) (s : Series)
    (df : DataFrame) (k i : nat) :
  nth_error (assign_from set k df s) i
  = option_map (fun r => set r (series_get s (k + i))) (nth_error df i).
Proof.
  revert k i. induction df as [|r df IH]; intros k [|i]; simpl;
    try reflexivity.
  - now rewrite Nat.add_0_r.
  - rewrite IH. now rewrite Nat.add_succ_r.
Qed.

Lemma length_assign_from (set : row -> option Q -> row) (s : Series)
    (df : DataFrame) (k : nat) :
  length (assign_from set k df s) = length df.
Proof.
  revert k. induction df as [|r df IH]; intros k; simpl;
    [reflexivity|now rewrite IH].
Qed.

Lemma map_Low_assign_high (s : Series) (df : DataFrame) (k : nat) :
  map Low (assign_from set_Swing_High k df s) = map Low df.
Proof.
  revert k. induction df as [|r df IH]; intros k; simpl;
    [reflexivity|now rewrite IH].
Qed.

Lemma greater_equal_refl (x : Q) : Np.greater_equal x x = true.
Proof. apply Qle_bool_iff. apply Qle_refl. Qed.

Lemma less_equal_refl (x : Q) : Np.less_equal x x = true.
Proof. apply Qle_bool_iff. apply Qle_refl. Qed.

(** The frame [find_swing_points] returns, row by row, in terms of the two
    boolean arrays of [_boolrelextrema]. *)
Lemma find_swing_points_rows (df : DataFrame) (order : Z) :
  1 <= order ->
  exists hi lo df',
    boolrelextrema (map High df) Np.greater_equal order = inr hi
    /\ boolrelextrema (map Low df) Np.less_equal order = inr lo
    /\ find_swing_points df order = inr df'
    /\ length df' = length df
    /\ forall i r, nth_error df i = Some r ->
         nth_error df' i
         = Some (mkRow (Date r) (Open r) (High r) (Low r) (Close r)
                   (if nth i hi false then Some (High r) else None)
                   (if nth i lo false then Some (Low r) else None)).
Proof.
  intros Ho.
  destruct (boolrelextrema_pointwise Np.greater_equal (map High df) order
              greater_equal_refl Ho) as (hi & Hhi & _).
  destruct (boolrelextrema_pointwise Np.less_equal (map Low df) order
              less_equal_refl Ho) as (lo & Hlo & _).
  exists hi, lo. eexists.
  split; [exact Hhi|]. split; [exact Hlo|]. split; [|split].
  - unfold find_swing_points, argrelextrema, assign.
    rewrite Hhi. simpl. rewrite map_Low_assign_high, Hlo. simpl.
    reflexivity.
  - now rewrite !length_assign_from.
  - intros i r Hr. rewrite !nth_error_assign_from, Hr. simpl.
    rewrite !series_get_marked, nth_error_assign_from, Hr. simpl.
    destruct (nth i hi false), (nth i lo false); reflexivity.
Qed.

Lemma nth_map_col (col : row -> Q) (df : DataFrame) (i : nat) (r : row) :
  nth_error df i = Some r -> nth i (map col df) 0%Q = col r.
Proof.
  intros H. apply nth_error_nth. now rewrite nth_error_map, H.
Qed.

Lemma window_max_iff (df : DataFrame) (order : Z) (i : nat) (r : row) :
  nth_error df i = Some r ->
  (forall j, Z.of_nat i - order <= Z.of_nat j <= Z.of_nat i + order ->
             (j < length (map High df))%nat ->
             Np.greater_equal (nth i (map High df) 0%Q)
               (nth j (map High df) 0%Q) = true)
  <-> window_max df order i r.
Proof.
  intros Hr. rewrite (nth_map_col High df i r Hr). unfold window_max. split.
  - intros H j rj Hw Hj. apply Qle_bool_iff.
    rewrite <- (nth_map_col High df j rj Hj). apply H; [exact Hw|].
    rewrite length_map. apply nth_error_Some. rewrite Hj. discriminate.
  - intros H j Hw Hj. rewrite length_map in Hj.
    destruct (nth_error df j) as [rj|] eqn:E.
    + rewrite (nth_map_col High df j rj E). apply Qle_bool_iff.
      now apply (H j rj).
    + apply nth_error_None in E. lia.
Qed.

Lemma window_min_iff (df : DataFrame) (order : Z) (i : nat) (r : row) :
  nth_error df i = Some r ->
  (forall j, Z.of_nat i - order <= Z.of_nat j <= Z.of_nat i + order ->
             (j < length (map Low df))%nat ->
             Np.less_equal (nth i (map Low df) 0%Q)
               (nth j (map Low df) 0%Q) = true)
  <-> window_min df order i r.
Proof.
  intros Hr. rewrite (nth_map_col Low df i r Hr). unfold window_min. split.
  - intros H j rj Hw Hj. apply Qle_bool_iff.
    rewrite <- (nth_map_col Low df j rj Hj). apply H; [exact Hw|].
    rewrite length_map. apply nth_error_Some. rewrite Hj. discriminate.
  - intros H j Hw Hj. rewrite length_map in Hj.
    destruct (nth_error df j) as [rj|] eqn:E.
    + rewrite (nth_map_col Low df j rj E). apply Qle_bool_iff.
      now apply (H j rj).
    + apply nth_error_None in E. lia.
Qed.

Lemma marker_iff (b : bool) (v : Q) (P : Prop) :
  (b = true <-> P) ->
  ((if b then Some v else None) = Some v <-> P)
  /\ ((if b then Some v else None) = None <-> ~ P).
Proof.
  intros H. destruct b; split; split.
  - intros _. now apply H.
  - reflexivity.
  - discriminate.
  - intros HnP. exfalso. now apply HnP, H.
  - discriminate.
  - intros HP. apply H in HP. discriminate.
  - intros _ HP. apply H in HP. discriminate.
  - reflexivity.
Qed.

(** The detector, row by row, against the swing rule. *)
Lemma find_swing_points_marks (df : DataFrame) (order : Z) :
  1 <= order ->
  exists df',
    find_swing_points df order = inr df'
    /\ length df' = length df
    /\ forall i r, nth_error df i = Some r ->
         exists r',
           nth_error df' i = Some r'
           /\ same_bar r r'
           /\ (Swing_High r' = Some (High r) <-> window_max df order i r)
           /\ (Swing_High r' = None <-> ~ window_max df order i r)
           /\ (Swing_Low r' = Some (Low r) <-> window_min df order i r)
           /\ (Swing_Low r' = None <-> ~ window_min df order i r).
Proof.
  intros Ho.
  destruct (find_swing_points_rows df order Ho)
    as (hi & lo & df' & Hhi & Hlo & Hf & Hlen & Hrows).
  destruct (boolrelextrema_pointwise Np.greater_equal (map High df) order
              greater_equal_refl Ho) as (hi' & Hhi' & _ & Hmax).
  destruct (boolrelextrema_pointwise Np.less_equal (map Low df) order
              less_equal_refl Ho) as (lo' & Hlo' & _ & Hmin).
  rewrite Hhi in Hhi'. injection Hhi' as <-.
  rewrite Hlo in Hlo'. injection Hlo' as <-.
  exists df'. split; [exact Hf|]. split; [exact Hlen|].
  intros i r Hr. rewrite (Hrows i r Hr). eexists. split; [reflexivity|].
  assert (Hi : (i < length df)%nat).
  { apply nth_error_Some. rewrite Hr. discriminate. }
  assert (HiH : (i < length (map High df))%nat) by now rewrite length_map.
  assert (HiL : (i < length (map Low df))%nat) by now rewrite length_map.
  pose proof (iff_trans (Hmax i HiH) (window_max_iff df order i r Hr)) as Hx.
  pose proof (iff_trans (Hmin i HiL) (window_min_iff df order i r Hr)) as Hn.
  clear Hmax Hmin.
  split; [repeat split|]. simpl.
  destruct (marker_iff (nth i hi false) (High r) _ Hx) as [H1 H2].
  destruct (marker_iff (nth i lo false) (Low r) _ Hn) as [H3 H4].
  repeat split; first [apply H1|apply H2|apply H3|apply H4].
Qed.

Lemma skipn_nth_cons {A : Type} (l : list A) (a : nat) (x : A) :
  nth_error l a = Some x -> skipn a l = x :: skipn (S a) l.
Proof.
  revert a. induction l as [|y l IH]; intros [|a]; simpl; try discriminate.
  - intros H. now injection H as ->.
  - intros H. now apply IH.
Qed.

(** A stretch of rows that all carry a marker yields as many swing prices. *)
Lemma markers_full (col : row -> option Q) (df : DataFrame) (a k : nat) :
  (forall i, (a <= i < a + k)%nat ->
             exists r, nth_error df i = Some r /\ col r <> None) ->
  length (dropna (map col (firstn k (skipn a df)))) = k.
Proof.
  revert a. induction k as [|k IH]; intros a H; [reflexivity|].
  destruct (H a ltac:(lia)) as (r & Hr & Hc).
  rewrite (skipn_nth_cons df a r Hr), firstn_cons. cbn [map dropna].
  destruct (col r) as [v|]; [|contradiction]. cbn [length]. f_equal.
  apply IH. intros i Hi. apply H. lia.
Qed.

(** C2. For every price series and window [w >= 1] the detector returns the
    series with its two swing columns, and the bar at index [i] carries a
    High marker (its high) iff its high is at least the high of every bar
    with index in [i-w, i+w] that exists, a Low marker (its low) iff its low
    is at most the low of every such bar.  In particular, when [k]
    consecutive bars share a high [m] that no bar within [w] of the run
    exceeds, all [k] of them carry a High marker; and likewise for lows. *)
Theorem swing_points_window (df : DataFrame) (order : Z) :
  1 <= order ->
  exists df',
    find_swing_points df order = inr df'
    /\ length df' = length df
    /\ (forall i r, nth_error df i = Some r ->
          exists r',
            nth_error df' i = Some r'
            /\ same_bar r r'
            /\ (Swing_High r' = Some (High r) <-> window_max df order i r)
            /\ (Swing_High r' = None <-> ~ window_max df order i r)
            /\ (Swing_Low r' = Some (Low r) <-> window_min df order i r)
            /\ (Swing_Low r' = None <-> ~ window_min df order i r))
    /\ (forall a k m,
          (forall i, (a <= i < a + k)%nat ->
                     exists r, nth_error df i = Some r /\ (High r == m)%Q) ->
          (forall j rj,
              Z.of_nat a - order <= Z.of_nat j
                <= Z.of_nat (a + k) - 1 + order ->
              nth_error df j = Some rj -> (High rj <= m)%Q) ->
          length (high_markers df' a k) = k)
    /\ (forall a k m,
          (forall i, (a <= i < a + k)%nat ->
                     exists r, nth_error df i = Some r /\ (Low r == m)%Q) ->
          (forall j rj,
              Z.of_nat a - order <= Z.of_nat j
                <= Z.of_nat (a + k) - 1 + order ->
              nth_error df j = Some rj -> (m <= Low rj)%Q) ->
          length (low_markers df' a k) = k).
Proof.
  intros Ho.
  destruct (find_swing_points_marks df order Ho) as (df' & Hf & Hlen & Hm).
  exists df'. split; [exact Hf|]. split; [exact Hlen|].
  split; [exact Hm|]. split.
  - intros a k m Hrun Htop. apply markers_full. intros i Hi.
    destruct (Hrun i Hi) as (r & Hr & E).
    destruct (Hm i r Hr) as (r' & Hr' & _ & Hmax & _).
    exists r'. split; [exact Hr'|].
    assert (W : window_max df order i r).
    { intros j rj Hw Hj. rewrite E. apply (Htop j rj); [lia|exact Hj]. }
    apply Hmax in W. rewrite W. discriminate.
  - intros a k m Hrun Hbot. apply markers_full. intros i Hi.
    destruct (Hrun i Hi) as (r & Hr & E).
    destruct (Hm i r Hr) as (r' & Hr' & _ & _ & _ & Hmin & _).
    exists r'. split; [exact Hr'|].
    assert (W : window_min df order i r).
    { intros j rj Hw Hj. rewrite E. apply (Hbot j rj); [lia|exact Hj]. }
    apply Hmin in W. rewrite W. discriminate.
Qed.

Lemma swing_points_window_witness :
  exists df',
    find_swing_points scenario_bars 1 = inr df'
    /\ map Swing_Low df' = [None; None; Some 90%Q; None; None]
    /\ map Swing_High df' = [Some 101%Q; None; None; None; Some 101%Q]
    /\ window_min scenario_bars 1 2 (bar 91 90).
Proof.
  destruct (swing_points_window scenario_bars 1) as (df' & Hf & _ & Hm & _).
  - discriminate.
  - exists df'. split; [exact Hf|].
    destruct (Hm 2%nat (bar 91 90) eq_refl) as (r' & Hr' & _ & _ & _ & Hlow & _).
    assert (E : df' = scenario_df).
    { unfold scenario_df. now rewrite Hf. }
    split; [now rewrite E|]. split; [now rewrite E|].
    apply Hlow. rewrite E in Hr'. now injection Hr' as <-.
Defined.

(** Three bars sharing the top of the series: each of them is marked. *)
Example flat_top_run :
  exists df',
    find_swing_points [bar 5 1; bar 7 1; bar 7 1; bar 7 1; bar 5 1] 1 = inr df'
    /\ map Swing_High df' = [None; Some 7%Q; Some 7%Q; Some 7%Q; None]
    /\ length (high_markers df' 1 3) = 3%nat.
Proof. eexists. repeat split. Qed.

(** ** Short and empty series *)







Lemma flat_map_nil {A B : Type} (l : list A) :
  flat_map (fun _ : A => @nil B) l = [].
Proof. induction l as [|x l IH]; simpl; [reflexivity|exact IH]. Qed.

(** C9. Empty inputs give empty outputs and no exception, stage by stage:
    the detector turns the empty series into the empty frame, which has no
    swing point; the aggregator returns no zone when the frame has no swing
    point, whatever the tiers, and when there is no tier, whatever the
    frame; the band filter returns no zone when it is given none. *)
Theorem empty_inputs_propagate (order : Z) :
  1 <= order ->
  find_swing_points [] order = inr []
  /\ swing_lows [] = [] /\ swing_highs [] = []
  /\ (forall df leverages,
        swing_lows df = [] -> swing_highs df = [] ->
        calculate_liquidation_zones df leverages = inr [])
  /\ (forall df, calculate_liquidation_zones df [] = inr [])
  /\ (forall p a b, filter_near_current [] p a b = [])
  /\ (forall p, liq_df_filtered [] p = []).
Proof.
  intros Ho. split; [|repeat split].
  - destruct (find_swing_points_marks [] order Ho) as (df' & Hf & Hlen & _).
    destruct df'; [exact Hf|discriminate].
  - intros df leverages Hl Hh. rewrite calculate_liquidation_zones_eq.
    rewrite Hl, Hh. reflexivity.
  - intros df.
    rewrite (calculate_liquidation_zones_usable df [] []) by constructor.
    simpl. now rewrite !flat_map_nil.
Qed.

Lemma empty_inputs_propagate_witness :
  find_swing_points [] default_order = inr []
  /\ calculate_liquidation_zones [] ["25x"; "50x"]%string = inr []
  /\ liq_df_filtered [] 95 = [].
Proof.
  destruct (empty_inputs_propagate default_order) as (H1 & _ & _ & H2 & _ & _ & H3).
  - discriminate.
  - split; [exact H1|]. split; [|apply H3].
    apply H2; reflexivity.
Defined.

(** ** The scenario of the spec, end to end *)

(** Lows 100, 95, 90, 95, 100: the bar at index 2 is the only swing Low;
    tiers 10x and 50x project it to 81 and 88.2, and both lie in the band
    (80.75, 109.25) around a current price of 95. *)
Example scenario_long_zones :
  swing_lows scenario_df = [90%Q]
  /\ mapM (long_zone 90) ["10x"; "50x"]%string
     = inr [long_of 90 10; long_of 90 50]
  /\ (Price (long_of 90 10) == 81)%Q
  /\ (Price (long_of 90 50) == 88.2)%Q
  /\ filter_near_current [long_of 90 10; long_of 90 50] 95 0.85 1.15
     = [long_of 90 10; long_of 90 50].
Proof. repeat split. Qed.

(** A High swing at 100 with leverage 25 projects to 104. *)
Example scenario_short_zone :
  short_zone 100 "25x" = inr (short_of 100 25)
  /\ (Price (short_of 100 25) == 104)%Q.
Proof. split; reflexivity. Qed.

(** The main block on the scenario's bars, and on no bars at all. *)
Example generate_heatmap_runs :
  generate_heatmap scenario_bars ["10x"; "50x"]%string
  = inr (Some [long_of 90 50; short_of 101 10; short_of 101 50;
               short_of 101 10; short_of 101 50])
  /\ generate_heatmap [] ["10x"; "50x"]%string = inr None.
Proof. split; reflexivity. Qed.

(** * Further properties of the code *)

(** ** The detector: errors, dependence on its input, window size *)

Lemma boolrelextrema_small_order (data : list Q) (cmp : Q -> Q -> bool)
    (order : Z) :
  order < 1 -> boolrelextrema data cmp order = inl ValueError.
Proof.
  intros H. unfold boolrelextrema.
  destruct (Z.ltb_spec order 1); [reflexivity|lia].
Qed.

Lemma find_swing_points_small_order (df : DataFrame) (order : Z) :
  order < 1 -> find_swing_points df order = inl ValueError.
Proof.
  intros H. unfold find_swing_points, argrelextrema.
  now rewrite boolrelextrema_small_order.
Qed.

Lemma find_swing_points_inr_order (df df' : DataFrame) (order : Z) :
  find_swing_points df order = inr df' -> 1 <= order.
Proof.
  intros H. destruct (Z.lt_ge_cases order 1) as [Hlt|Hge]; [|exact Hge].
  rewrite (find_swing_points_small_order df order Hlt) in H. discriminate.
Qed.

(** X1. [find_swing_points] raises exactly when [order < 1], whatever the
    frame, and then it raises ValueError. *)
Theorem find_swing_points_raises (df : DataFrame) (order : Z) :
  ((exists e, find_swing_points df order = inl e) <-> order < 1)
  /\ (forall e, find_swing_points df order = inl e -> e = ValueError).
Proof.
  destruct (Z.lt_ge_cases order 1) as [Hlt|Hge].
  - pose proof (find_swing_points_small_order df order Hlt) as E.
    split.
    + split; [intros _; exact Hlt|intros _; now exists ValueError].
    + intros e He. rewrite E in He. now injection He as <-.
  - destruct (find_swing_points_marks df order Hge) as (df' & Hf & _).
    split.
    + split; [intros [e He]; rewrite Hf in He; discriminate|lia].
    + intros e He. rewrite Hf in He. discriminate.
Qed.

(** A row of the detector's output: its bar, and for each swing column the
    marker together with the swing rule, or no marker and the rule failing. *)
Lemma find_swing_points_cases (df df' : DataFrame) (order : Z) (i : nat)
    (r' : row) :
  find_swing_points df order = inr df' -> nth_error df' i = Some r' ->
  exists r,
    nth_error df i = Some r /\ same_bar r r'
    /\ ((Swing_High r' = Some (High r) /\ window_max df order i r)
        \/ (Swing_High r' = None /\ ~ window_max df order i r))
    /\ ((Swing_Low r' = Some (Low r) /\ window_min df order i r)
        \/ (Swing_Low r' = None /\ ~ window_min df order i r)).
Proof.
  intros Hf Hr'. pose proof (find_swing_points_inr_order df df' order Hf) as Ho.
  destruct (find_swing_points_marks df order Ho) as (d & Hd & Hlen & Hm).
  rewrite Hf in Hd. injection Hd as <-.
  destruct (nth_error df i) as [r|] eqn:Hr.
  - exists r. split; [reflexivity|].
    destruct (Hm i r Hr) as (r'' & Hr'' & Hbar & H1 & H2 & H3 & H4).
    rewrite Hr' in Hr''. injection Hr'' as <-.
    split; [exact Hbar|].
    destruct (find_swing_points_rows df order Ho)
      as (hi & lo & d & _ & _ & Hd & _ & Hrows).
    rewrite Hf in Hd. injection Hd as <-.
    rewrite (Hrows i r Hr) in Hr'. injection Hr' as Er.
    assert (EH : Swing_High r'
                 = if nth i hi false then Some (High r) else None)
      by now rewrite <- Er.
    assert (EL : Swing_Low r'
                 = if nth i lo false then Some (Low r) else None)
      by now rewrite <- Er.
    split.
    + destruct (nth i hi false).
      * left. split; [exact EH|now apply H1].
      * right. split; [exact EH|now apply H2].
    + destruct (nth i lo false).
      * left. split; [exact EL|now apply H3].
      * right. split; [exact EL|now apply H4].
  - apply nth_error_None in Hr.
    assert (Hi : (i < length df')%nat).
    { apply nth_error_Some. rewrite Hr'. discriminate. }
    lia.
Qed.

Lemma Forall2_nth_error {A B : Type} (R : A -> B -> Prop) (l1 : list A)
    (l2 : list B) (i : nat) (x : A) :
  Forall2 R l1 l2 -> nth_error l1 i = Some x ->
  exists y, nth_error l2 i = Some y /\ R x y.
Proof.
  intros H. revert i. induction H as [|a b l1 l2 Hab _ IH]; intros [|i] Hx;
    simpl in *; try discriminate.
  - injection Hx as <-. now exists b.
  - now apply IH.
Qed.

Lemma Forall2_pointwise {A B : Type} (R : A -> B -> Prop) (l1 : list A)
    (l2 : list B) :
  length l1 = length l2 ->
  (forall i x y, nth_error l1 i = Some x -> nth_error l2 i = Some y -> R x y) ->
  Forall2 R l1 l2.
Proof.
  revert l2. induction l1 as [|a l1 IH]; intros [|b l2] Hlen H;
    simpl in Hlen; try discriminate; constructor.
  - now apply (H 0%nat).
  - apply IH; [lia|]. intros i x y Hx Hy. now apply (H (S i)).
Qed.

Lemma same_bar_columns (df1 df2 : DataFrame) :
  Forall2 same_bar df1 df2 ->
  map High df2 = map High df1 /\ map Low df2 = map Low df1.
Proof.
  induction 1 as [|r1 r2 df1 df2 (_ & _ & Hh & Hl & _) _ [IHh IHl]]; simpl;
    [split; reflexivity|].
  now rewrite Hh, Hl, IHh, IHl.
Qed.

Lemma find_swing_points_ext (df1 df2 : DataFrame) (order : Z) :
  Forall2 same_bar df1 df2 ->
  find_swing_points df2 order = find_swing_points df1 order.
Proof.
  intros Hb. destruct (Z.lt_ge_cases order 1) as [Hlt|Ho].
  - now rewrite !find_swing_points_small_order.
  - destruct (find_swing_points_rows df1 order Ho)
      as (hi1 & lo1 & d1 & Hhi1 & Hlo1 & Hf1 & Hlen1 & Hrows1).
    destruct (find_swing_points_rows df2 order Ho)
      as (hi2 & lo2 & d2 & Hhi2 & Hlo2 & Hf2 & Hlen2 & Hrows2).
    destruct (same_bar_columns df1 df2 Hb) as [EH EL].
    rewrite EH, Hhi1 in Hhi2. injection Hhi2 as <-.
    rewrite EL, Hlo1 in Hlo2. injection Hlo2 as <-.
    rewrite Hf1, Hf2. f_equal. apply nth_error_ext. intros n.
    destruct (nth_error df1 n) as [r1|] eqn:Hr1.
    + destruct (Forall2_nth_error _ _ _ _ _ Hb Hr1)
        as (r2 & Hr2 & Hd & Ho' & Hh & Hl & Hc).
      rewrite (Hrows1 n r1 Hr1), (Hrows2 n r2 Hr2), Hd, Ho', Hh, Hl, Hc.
      reflexivity.
    + pose proof (Forall2_length Hb) as Hlen.
      apply nth_error_None in Hr1.
      transitivity (@None row); [|symmetry]; apply nth_error_None; lia.
Qed.

(** X2. The detector reads the bar columns only: two frames with the same
    bars, whatever their swing columns held before, get the same result
    (the same frame, or the same exception). *)
Theorem find_swing_points_bars_only (df1 df2 : DataFrame) (order : Z) :
  Forall2 same_bar df1 df2 ->
  find_swing_points df2 order = find_swing_points df1 order.
Proof. apply find_swing_points_ext. Qed.

Lemma scenario_same_bars :
  Forall2 same_bar scenario_bars scenario_df.
Proof. repeat constructor. Qed.

Lemma find_swing_points_bars_only_witness :
  find_swing_points scenario_df 1 = find_swing_points scenario_bars 1.
Proof.
  apply (find_swing_points_bars_only scenario_bars scenario_df 1).
  exact scenario_same_bars.
Defined.

Lemma find_swing_points_same_bars (df df' : DataFrame) (order : Z) :
  find_swing_points df order = inr df' -> Forall2 same_bar df df'.
Proof.
  intros Hf. pose proof (find_swing_points_inr_order df df' order Hf) as Ho.
  destruct (find_swing_points_marks df order Ho) as (d & Hd & Hlen & _).
  rewrite Hf in Hd. injection Hd as <-.
  apply Forall2_pointwise; [now symmetry|].
  intros i r r' Hr Hr'.
  destruct (find_swing_points_cases df df' order i r' Hf Hr')
    as (r0 & Hr0 & Hbar & _).
  rewrite Hr in Hr0. injection Hr0 as <-. exact Hbar.
Qed.

(** X3. Running the detector on its own output changes nothing: the swing
    columns are recomputed from the bars and come out the same. *)
Theorem find_swing_points_idempotent (df df' : DataFrame) (order : Z) :
  find_swing_points df order = inr df' ->
  find_swing_points df' order = inr df'.
Proof.
  intros Hf. rewrite <- Hf.
  apply find_swing_points_ext.
  now apply (find_swing_points_same_bars df df' order).
Qed.

Lemma find_swing_points_idempotent_witness :
  find_swing_points scenario_df 1 = inr scenario_df.
Proof.
  apply (find_swing_points_idempotent scenario_bars scenario_df 1).
  reflexivity.
Defined.

Lemma window_max_narrow (df : DataFrame) (w1 w2 : Z) (i : nat) (r : row) :
  w1 <= w2 -> window_max df w2 i r -> window_max df w1 i r.
Proof. intros Hw H j rj Hj. apply H. lia. Qed.

Lemma window_min_narrow (df : DataFrame) (w1 w2 : Z) (i : nat) (r : row) :
  w1 <= w2 -> window_min df w2 i r -> window_min df w1 i r.
Proof. intros Hw H j rj Hj. apply H. lia. Qed.

Lemma dropna_length_le (col : row -> option Q) (d1 d2 : DataFrame) :
  Forall2 (fun r1 r2 => col r2 <> None -> col r1 <> None) d1 d2 ->
  (length (dropna (map col d2)) <= length (dropna (map col d1)))%nat.
Proof.
  induction 1 as [|r1 r2 d1 d2 H _ IH]; simpl; [lia|].
  destruct (col r2) as [v2|]; destruct (col r1) as [v1|]; simpl; try lia.
  exfalso. now apply H.
Qed.

(** X4. A wider window marks fewer bars: every bar that carries a High (or
    Low) marker for [order = w2] carries the same marker for every smaller
    [order = w1 >= 1], so the number of swing points does not grow with the
    window. *)
Theorem swing_markers_shrink (df d1 d2 : DataFrame) (w1 w2 : Z) :
  w1 <= w2 ->
  find_swing_points df w1 = inr d1 -> find_swing_points df w2 = inr d2 ->
  (forall i r1 r2,
      nth_error d1 i = Some r1 -> nth_error d2 i = Some r2 ->
      (Swing_High r2 <> None -> Swing_High r1 = Swing_High r2)
      /\ (Swing_Low r2 <> None -> Swing_Low r1 = Swing_Low r2))
  /\ (length (swing_highs d2) <= length (swing_highs d1))%nat
  /\ (length (swing_lows d2) <= length (swing_lows d1))%nat.
Proof.
  intros Hw H1 H2.
  assert (P : forall i r1 r2,
             nth_error d1 i = Some r1 -> nth_error d2 i = Some r2 ->
             (Swing_High r2 <> None -> Swing_High r1 = Swing_High r2)
             /\ (Swing_Low r2 <> None -> Swing_Low r1 = Swing_Low r2)).
  { intros i r1 r2 Hr1 Hr2.
    destruct (find_swing_points_cases df d1 w1 i r1 H1 Hr1)
      as (r & Hr & _ & Hh1 & Hl1).
    destruct (find_swing_points_cases df d2 w2 i r2 H2 Hr2)
      as (r0 & Hr0 & _ & Hh2 & Hl2).
    rewrite Hr in Hr0. injection Hr0 as <-. split.
    - intros Hn. destruct Hh2 as [[E2 W2]|[E2 _]]; [|contradiction].
      destruct Hh1 as [[E1 _]|[_ N1]]; [congruence|].
      exfalso. apply N1. now apply (window_max_narrow df w1 w2).
    - intros Hn. destruct Hl2 as [[E2 W2]|[E2 _]]; [|contradiction].
      destruct Hl1 as [[E1 _]|[_ N1]]; [congruence|].
      exfalso. apply N1. now apply (window_min_narrow df w1 w2). }
  assert (Hlen : length d1 = length d2).
  { pose proof (Forall2_length (find_swing_points_same_bars df d1 w1 H1)).
    pose proof (Forall2_length (find_swing_points_same_bars df d2 w2 H2)).
    lia. }
  split; [exact P|]. split.
  - apply dropna_length_le. apply Forall2_pointwise; [exact Hlen|].
    intros i r1 r2 Hr1 Hr2 Hn.
    destruct (P i r1 r2 Hr1 Hr2) as [Hh _]. now rewrite (Hh Hn).
  - apply dropna_length_le. apply Forall2_pointwise; [exact Hlen|].
    intros i r1 r2 Hr1 Hr2 Hn.
    destruct (P i r1 r2 Hr1 Hr2) as [_ Hl]. now rewrite (Hl Hn).
Qed.

Lemma swing_markers_shrink_witness :
  exists d1 d2,
    find_swing_points [bar 3 1; bar 2 1; bar 5 1] 1 = inr d1
    /\ find_swing_points [bar 3 1; bar 2 1; bar 5 1] 2 = inr d2
    /\ swing_highs d1 = [3%Q; 5%Q] /\ swing_highs d2 = [5%Q]
    /\ (length (swing_highs d2) <= length (swing_highs d1))%nat.
Proof.
  do 2 eexists. split; [reflexivity|]. split; [reflexivity|].
  split; [reflexivity|]. split; [reflexivity|].
  apply (swing_markers_shrink [bar 3 1; bar 2 1; bar 5 1] _ _ 1 2).
  - discriminate.
  - reflexivity.
  - reflexivity.
Defined.

Lemma window_covers_all (df : DataFrame) (order : Z) (i j : nat) :
  Z.of_nat (length df) - 1 <= order ->
  (i < length df)%nat -> (j < length df)%nat ->
  Z.of_nat i - order <= Z.of_nat j <= Z.of_nat i + order.
Proof. lia. Qed.

(** X5. A bar whose high is the highest of the whole series carries a High
    marker for every window, and a bar whose low is the lowest a Low marker.
    Once the window reaches over the whole series
    ([order >= len(df) - 1]) these are the only marked bars. *)
Theorem series_extrema_marked (df df' : DataFrame) (order : Z) (i : nat)
    (r r' : row) :
  find_swing_points df order = inr df' ->
  nth_error df i = Some r -> nth_error df' i = Some r' ->
  ((forall rj, In rj df -> (High rj <= High r)%Q) ->
     Swing_High r' = Some (High r))
  /\ ((forall rj, In rj df -> (Low r <= Low rj)%Q) ->
     Swing_Low r' = Some (Low r))
  /\ (Z.of_nat (length df) - 1 <= order ->
      (Swing_High r' <> None -> forall rj, In rj df -> (High rj <= High r)%Q)
      /\ (Swing_Low r' <> None -> forall rj, In rj df -> (Low r <= Low rj)%Q)).
Proof.
  intros Hf Hr Hr'.
  destruct (find_swing_points_cases df df' order i r' Hf Hr')
    as (r0 & Hr0 & _ & Hh & Hl).
  rewrite Hr in Hr0. injection Hr0 as <-.
  assert (Hi : (i < length df)%nat).
  { apply nth_error_Some. rewrite Hr. discriminate. }
  split; [|split; [|intros Hbig; split]].
  - intros Hall. destruct Hh as [[E _]|[_ N]]; [exact E|].
    exfalso. apply N. intros j rj _ Hj. apply Hall.
    now apply nth_error_In with j.
  - intros Hall. destruct Hl as [[E _]|[_ N]]; [exact E|].
    exfalso. apply N. intros j rj _ Hj. apply Hall.
    now apply nth_error_In with j.
  - intros Hn rj Hin. destruct Hh as [[_ W]|[E _]]; [|contradiction].
    apply In_nth_error in Hin. destruct Hin as [j Hj].
    apply (W j rj); [|exact Hj].
    apply (window_covers_all df order i j Hbig Hi).
    apply nth_error_Some. rewrite Hj. discriminate.
  - intros Hn rj Hin. destruct Hl as [[_ W]|[E _]]; [|contradiction].
    apply In_nth_error in Hin. destruct Hin as [j Hj].
    apply (W j rj); [|exact Hj].
    apply (window_covers_all df order i j Hbig Hi).
    apply nth_error_Some. rewrite Hj. discriminate.
Qed.

Lemma series_extrema_marked_witness :
  Swing_Low (mkRow 0 90 91 90 90 None (Some 90%Q)) = Some (Low (bar 91 90)).
Proof.
  apply (series_extrema_marked scenario_bars scenario_df 1 2 (bar 91 90)
           (mkRow 0 90 91 90 90 None (Some 90%Q))).
  - reflexivity.
  - reflexivity.
  - reflexivity.
  - intros rj Hin. simpl in Hin.
    destruct Hin as [<-|[<-|[<-|[<-|[<-|[]]]]]]; discriminate.
Defined.

Lemma dropna_length (col : list (option Q)) :
  (length (dropna col) <= length col)%nat.
Proof.
  induction col as [|[v|] col IH]; simpl; lia.
Qed.

(** X6. Every swing price the aggregator reads off the detector's frame is
    the high (for a High swing) or the low (for a Low swing) of a bar of the
    series that satisfies the swing rule, and there are at most as many
    swing prices of either kind as there are bars. *)
Theorem swing_prices_origin (df df' : DataFrame) (order : Z) :
  find_swing_points df order = inr df' ->
  (forall s, In s (swing_highs df') ->
     exists i r, nth_error df i = Some r /\ s = High r
                 /\ window_max df order i r)
  /\ (forall s, In s (swing_lows df') ->
     exists i r, nth_error df i = Some r /\ s = Low r
                 /\ window_min df order i r)
  /\ (length (swing_highs df') <= length df)%nat
  /\ (length (swing_lows df') <= length df)%nat.
Proof.
  intros Hf.
  pose proof (Forall2_length (find_swing_points_same_bars df df' order Hf))
    as Hlen.
  split; [|split; [|split]].
  - intros s Hs. apply in_dropna in Hs. destruct Hs as (r' & Hin & Hs).
    apply In_nth_error in Hin. destruct Hin as [i Hr'].
    destruct (find_swing_points_cases df df' order i r' Hf Hr')
      as (r & Hr & _ & [[E W]|[E _]] & _); [|congruence].
    exists i, r. split; [exact Hr|]. split; [congruence|exact W].
  - intros s Hs. apply in_dropna in Hs. destruct Hs as (r' & Hin & Hs).
    apply In_nth_error in Hin. destruct Hin as [i Hr'].
    destruct (find_swing_points_cases df df' order i r' Hf Hr')
      as (r & Hr & _ & _ & [[E W]|[E _]]); [|congruence].
    exists i, r. split; [exact Hr|]. split; [congruence|exact W].
  - unfold swing_highs. rewrite Hlen, <- (length_map Swing_High df').
    apply dropna_length.
  - unfold swing_lows. rewrite Hlen, <- (length_map Swing_Low df').
    apply dropna_length.
Qed.

Lemma swing_prices_origin_witness :
  (length (swing_highs scenario_df) <= length scenario_bars)%nat
  /\ (length (swing_lows scenario_df) <= length scenario_bars)%nat.
Proof.
  apply (swing_prices_origin scenario_bars scenario_df 1). reflexivity.
Defined.

(** X7. Two bars that both carry a High marker and lie within [order]
    positions of each other have equal highs; likewise two Low-marked bars
    have equal lows.  Distinct swing prices are more than [order] bars
    apart. *)
Theorem close_markers_equal (df df' : DataFrame) (order : Z) (i j : nat)
    (ri rj : row) :
  find_swing_points df order = inr df' ->
  nth_error df' i = Some ri -> nth_error df' j = Some rj ->
  Z.abs (Z.of_nat i - Z.of_nat j) <= order ->
  (Swing_High ri <> None -> Swing_High rj <> None -> (High ri == High rj)%Q)
  /\ (Swing_Low ri <> None -> Swing_Low rj <> None -> (Low ri == Low rj)%Q).
Proof.
  intros Hf Hi Hj Hd.
  destruct (find_swing_points_cases df df' order i ri Hf Hi)
    as (bi & Hbi & (_ & _ & Ehi & Eli & _) & Hhi & Hli).
  destruct (find_swing_points_cases df df' order j rj Hf Hj)
    as (bj & Hbj & (_ & _ & Ehj & Elj & _) & Hhj & Hlj).
  rewrite Ehi, Ehj, Eli, Elj. split.
  - intros Ni Nj.
    destruct Hhi as [[_ Wi]|[E _]]; [|contradiction].
    destruct Hhj as [[_ Wj]|[E _]]; [|contradiction].
    apply Qle_antisym.
    + apply (Wj i bi); [lia|exact Hbi].
    + apply (Wi j bj); [lia|exact Hbj].
  - intros Ni Nj.
    destruct Hli as [[_ Wi]|[E _]]; [|contradiction].
    destruct Hlj as [[_ Wj]|[E _]]; [|contradiction].
    apply Qle_antisym.
    + apply (Wi j bj); [lia|exact Hbj].
    + apply (Wj i bi); [lia|exact Hbi].
Qed.

Lemma close_markers_equal_witness :
  exists df' ri rj,
    find_swing_points [bar 5 1; bar 7 1; bar 7 1; bar 7 1; bar 5 1] 1 = inr df'
    /\ nth_error df' 1 = Some ri /\ nth_error df' 2 = Some rj
    /\ Swing_High ri = Some 7%Q /\ Swing_High rj = Some 7%Q
    /\ (High ri == High rj)%Q.
Proof.
  do 3 eexists. split; [reflexivity|]. split; [reflexivity|].
  split; [reflexivity|]. split; [reflexivity|]. split; [reflexivity|].
  eapply (close_markers_equal
            [bar 5 1; bar 7 1; bar 7 1; bar 7 1; bar 5 1] _ 1 1 2).
  - reflexivity.
  - reflexivity.
  - reflexivity.
  - discriminate.
  - discriminate.
  - discriminate.
Defined.

(** ** The projector and the aggregator: leverage, signs, exceptions *)






Lemma usable_tier_dec (lev : string) :
  {exists L, usable_tier lev L} + {~ exists L, usable_tier lev L}.
Proof.
  unfold usable_tier, tier_value.
  destruct (py_int (str_replace "x" "" lev)) as [e|L].
  - right. intros (L & H & _). discriminate.
  - destruct (Z.eq_dec L 0) as [->|N].
    + right. intros (L & H & HL). injection H as <-. now apply HL.
    + left. now exists L.
Qed.

(** An unusable tier makes either projection raise, and it raises
    ValueError or ZeroDivisionError. *)
Lemma unusable_tier_raises (p : Q) (lev : string) :
  ~ (exists L, usable_tier lev L) ->
  exists e, long_zone p lev = inl e /\ short_zone p lev = inl e
            /\ (e = ValueError \/ e = ZeroDivisionError).
Proof.
  intros N. unfold long_zone, short_zone, true_div.
  destruct (py_int (str_replace "x" "" lev)) as [e|L] eqn:E; simpl.
  - exists e. split; [reflexivity|]. split; [reflexivity|].
    unfold py_int in E.
    destruct (skip_space _) as [|c s1];
      repeat match type of E with
             | context [match ?x with _ => _ end] => destruct x
             | context [if ?x then _ else _] => destruct x
             end;
      try discriminate;
      (injection E as <-; now left).
  - destruct (Z.eqb_spec L 0) as [->|HL]; simpl.
    + exists ZeroDivisionError. repeat split. now right.
    + exfalso. apply N. exists L. now split.
Qed.

Lemma mapM_inl {A B : Type} (f : A -> result B) (xs : list A) (e : exn) :
  mapM f xs = inl e -> exists x, In x xs /\ f x = inl e.
Proof.
  induction xs as [|x xs IH]; simpl; [discriminate|].
  destruct (f x) as [e'|y] eqn:Hx; simpl.
  - intros H. injection H as <-. exists x. split; [now left|exact Hx].
  - destruct (mapM f xs) as [e'|ys]; simpl; [|discriminate].
    intros H. injection H as <-.
    destruct (IH eq_refl) as (x' & Hin & Hx'). exists x'.
    split; [now right|exact Hx'].
Qed.

Lemma mapM_fails {A B : Type} (f : A -> result B) (xs : list A) (x : A) :
  In x xs -> (exists e, f x = inl e) -> exists e, mapM f xs = inl e.
Proof.
  intros Hin [e He]. induction xs as [|y xs IH]; simpl; [contradiction|].
  destruct Hin as [->|Hin].
  - rewrite He. now exists e.
  - destruct (f y) as [e'|v]; simpl; [now exists e'|].
    destruct (IH Hin) as [e' ->]. now exists e'.
Qed.

(** What a raising aggregator tells about its input. *)
Lemma calculate_liquidation_zones_inl (df : DataFrame)
    (leverages : list string) (e : exn) :
  calculate_liquidation_zones df leverages = inl e ->
  (swing_lows df <> [] \/ swing_highs df <> [])
  /\ (exists lev, In lev leverages /\ ~ exists L, usable_tier lev L)
  /\ (e = ValueError \/ e = ZeroDivisionError).
Proof.
  rewrite calculate_liquidation_zones_eq.
  destruct (mapM (fun p => mapM (long_zone p) leverages) (swing_lows df))
    as [e1|ls] eqn:Hls; simpl.
  - intros H. injection H as <-.
    apply mapM_inl in Hls. destruct Hls as (p & Hp & Hm).
    apply mapM_inl in Hm. destruct Hm as (lev & Hlev & Hz).
    assert (N : ~ exists L, usable_tier lev L).
    { intros [L U]. rewrite (long_zone_usable p lev L U) in Hz.
      discriminate. }
    split; [left; intros E; now rewrite E in Hp|].
    split; [now exists lev|].
    destruct (unusable_tier_raises p lev N) as (e' & He' & _ & K).
    rewrite Hz in He'. injection He' as <-. exact K.
  - destruct (mapM (fun p => mapM (short_zone p) leverages) (swing_highs df))
      as [e2|hs] eqn:Hhs; simpl; [|discriminate].
    intros H. injection H as <-.
    apply mapM_inl in Hhs. destruct Hhs as (p & Hp & Hm).
    apply mapM_inl in Hm. destruct Hm as (lev & Hlev & Hz).
    assert (N : ~ exists L, usable_tier lev L).
    { intros [L U]. rewrite (short_zone_usable p lev L U) in Hz.
      discriminate. }
    split; [right; intros E; now rewrite E in Hp|].
    split; [now exists lev|].
    destruct (unusable_tier_raises p lev N) as (e' & _ & He' & K).
    rewrite Hz in He'. injection He' as <-. exact K.
Qed.

(** X10. The aggregator raises exactly when the frame has a swing point and
    some tier is unusable (it does not parse as an integer, or parses as
    0); the exception is then ValueError or ZeroDivisionError.  Without a
    swing point the tiers are never parsed, so nothing is raised. *)
Theorem aggregator_raises (df : DataFrame) (leverages : list string) :
  ((exists e, calculate_liquidation_zones df leverages = inl e)
   <-> (swing_lows df <> [] \/ swing_highs df <> [])
       /\ exists lev, In lev leverages /\ ~ exists L, usable_tier lev L)
  /\ (forall e, calculate_liquidation_zones df leverages = inl e ->
                e = ValueError \/ e = ZeroDivisionError).
Proof.
  split; [split|].
  - intros [e He].
    destruct (calculate_liquidation_zones_inl df leverages e He)
      as (Hs & Hl & _). now split.
  - intros [Hs (lev & Hlev & N)].
    rewrite calculate_liquidation_zones_eq.
    destruct (swing_lows df) as [|p lows] eqn:El.
    + destruct Hs as [Hs|Hs]; [contradiction|].
      destruct (swing_highs df) as [|q highs]; [contradiction|].
      destruct (unusable_tier_raises q lev N) as (e & _ & He & _).
      destruct (mapM_fails (short_zone q) leverages lev Hlev
                  (ex_intro _ e He)) as [e' He'].
      simpl. rewrite He'. simpl. now exists e'.
    + destruct (unusable_tier_raises p lev N) as (e & He & _ & _).
      destruct (mapM_fails (long_zone p) leverages lev Hlev
                  (ex_intro _ e He)) as [e' He'].
      simpl. rewrite He'. simpl. now exists e'.
  - intros e He.
    now destruct (calculate_liquidation_zones_inl df leverages e He)
      as (_ & _ & K).
Qed.

Lemma margin_below (p : Q) (L : Z) :
  (0 < p)%Q -> 1 < L -> (p * (inject_Z 1 / inject_Z L) < p)%Q.
Proof.
  intros Hp HL.
  assert (H1 : (inject_Z 1 / inject_Z L < 1)%Q).
  { apply Qlt_shift_div_r; [apply inject_Z_pos; lia|].
    rewrite Qmult_1_l. now rewrite <- Zlt_Qlt. }
  rewrite <- (Qmult_1_r p) at 2. now apply Qmult_lt_l.
Qed.

(** X11. When every swing price of the frame is positive and every tier
    stands for a leverage above 1, every zone the aggregator returns has a
    positive price. *)
Theorem zones_positive (df : DataFrame) (leverages : list string)
    (zones : list zone) :
  calculate_liquidation_zones df leverages = inr zones ->
  (forall s, In s (swing_lows df) \/ In s (swing_highs df) -> (0 < s)%Q) ->
  (forall lev L, In lev leverages -> tier_value lev L -> 1 < L) ->
  forall z, In z zones -> (0 < Price z)%Q.
Proof.
  intros Hc Hpos Hlev z Hz.
  destruct (zone_origin df leverages zones z Hc Hz)
    as [(p & lev & Hp & Hin & Hl)|(p & lev & Hp & Hin & Hs)].
  - apply long_zone_inv in Hl. destruct Hl as (L & Hv & _ & ->).
    pose proof (Hpos p (or_introl Hp)) as H0.
    pose proof (margin_below p L H0 (Hlev lev L Hin Hv)) as Hm.
    simpl. lra.
  - apply short_zone_inv in Hs. destruct Hs as (L & Hv & _ & ->).
    pose proof (Hpos p (or_intror Hp)) as H0.
    pose proof (Hlev lev L Hin Hv) as HL.
    pose proof (margin_pos p L H0 ltac:(lia)) as Hm.
    simpl. lra.
Qed.

Lemma zones_positive_witness :
  (0 < Price (long_of 90 50))%Q.
Proof.
  apply (zones_positive scenario_df ["10x"; "50x"]%string
           [long_of 90 10; long_of 90 50;
            short_of 101 10; short_of 101 50;
            short_of 101 10; short_of 101 50]).
  - reflexivity.
  - intros s [H|H]; simpl in H.
    + destruct H as [<-|[]]. reflexivity.
    + destruct H as [<-|[<-|[]]]; reflexivity.
  - intros lev L [<-|[<-|[]]] H; unfold tier_value in H; simpl in H;
      injection H as <-; reflexivity.
  - simpl. right. left. reflexivity.
Defined.

(** ** The display band: degenerate bands, composition *)

Lemma empty_band (Z : list zone) (p a b : Q) :
  (p * b <= p * a)%Q -> filter_near_current Z p a b = [].
Proof.
  intros H. destruct (in_band_decidable p a b) as [f Hf].
  rewrite (filter_near_current_filter Z p a b f Hf).
  apply filter_none. intros z _.
  destruct (f z) eqn:E; [|reflexivity].
  apply Hf in E. destruct E as [E1 E2]. lra.
Qed.



(** X13. With the ratios of the program (0.85 and 1.15) a current price
    that is zero or negative draws nothing: every zone is filtered out. *)
Theorem nonpositive_price_retains_nothing (Z : list zone) (p : Q) :
  (p <= 0)%Q -> liq_df_filtered Z p = [].
Proof.
  intros Hp. unfold liq_df_filtered. apply empty_band. lra.
Qed.

Lemma nonpositive_price_retains_nothing_witness :
  liq_df_filtered [long_of (-12) 10; short_of (-10) 10] (-12) = [].
Proof.
  apply (nonpositive_price_retains_nothing
           [long_of (-12) 10; short_of (-10) 10] (-12)).
  discriminate.
Defined.

(** X14. Filtering with a band and then with a band inside it is filtering
    with the inner band alone. *)
Theorem nested_bands_compose (Z : list zone) (p a b a' b' : Q) :
  (p * a <= p * a')%Q -> (p * b' <= p * b)%Q ->
  filter_near_current (filter_near_current Z p a b) p a' b'
  = filter_near_current Z p a' b'.
Proof.
  intros Ha Hb.
  destruct (in_band_decidable p a b) as [f Hf].
  destruct (in_band_decidable p a' b') as [g Hg].
  rewrite (filter_near_current_filter _ p a' b' g Hg).
  rewrite (filter_near_current_filter Z p a b f Hf).
  rewrite (filter_near_current_filter Z p a' b' g Hg).
  induction Z as [|z Z IH]; simpl; [reflexivity|].
  destruct (f z) eqn:Ef; simpl.
  - destruct (g z); now rewrite IH.
  - destruct (g z) eqn:Eg; [|exact IH].
    exfalso. apply Hg in Eg. destruct Eg as [E1 E2].
    assert (Hin : in_band p a b z) by (split; lra).
    apply Hf in Hin. congruence.
Qed.

Lemma nested_bands_compose_witness :
  filter_near_current
    (filter_near_current [long_of 90 10; long_of 90 50; short_of 101 10]
       95 0.85 1.15) 95 0.9 1.1
  = filter_near_current [long_of 90 10; long_of 90 50; short_of 101 10]
      95 0.9 1.1.
Proof.
  apply (nested_bands_compose
           [long_of 90 10; long_of 90 50; short_of 101 10]
           95 0.85 1.15 0.9 1.1); discriminate.
Defined.

(** X15. The band filter works zone by zone: filtering a concatenation is
    concatenating the filtered parts, and the result is never longer than
    the input. *)
Theorem filter_near_current_app (Z1 Z2 : list zone) (p a b : Q) :
  filter_near_current (Z1 ++ Z2) p a b
  = filter_near_current Z1 p a b ++ filter_near_current Z2 p a b
  /\ (length (filter_near_current Z1 p a b) <= length Z1)%nat.
Proof.
  destruct (in_band_decidable p a b) as [f Hf].
  rewrite !(filter_near_current_filter _ p a b f Hf). split.
  - apply filter_app.
  - apply filter_length_le.
Qed.

(** ** The drawing loop and the main block *)





Lemma iloc_last_nonempty (col : list Q) :
  col <> [] -> exists v, iloc_last col = inr v.
Proof.
  intros H. unfold iloc_last. destruct (rev col) as [|v l] eqn:E.
  - apply (f_equal (@rev Q)) in E. rewrite rev_involutive in E.
    simpl in E. contradiction.
  - now exists v.
Qed.





(** X18. When the main block raises, the frame is not empty, some tier is
    unusable, and the exception is ValueError or ZeroDivisionError: the
    detector with its default order and the read of the last close never
    raise. *)
Theorem generate_heatmap_raises (df : DataFrame)
    (leverage_tiers : list string) (e : exn) :
  generate_heatmap df leverage_tiers = inl e ->
  df <> []
  /\ (exists lev, In lev leverage_tiers /\ ~ exists L, usable_tier lev L)
  /\ (e = ValueError \/ e = ZeroDivisionError).
Proof.
  destruct df as [|r df]; [discriminate|].
  unfold generate_heatmap.
  destruct (find_swing_points_marks (r :: df) default_order
              ltac:(discriminate)) as (df' & Hf & Hlen & _).
  rewrite Hf. cbn [bind].
  destruct (calculate_liquidation_zones df' leverage_tiers) as [e'|zs] eqn:Hc;
    cbn [bind].
  - intros H. injection H as <-. split; [discriminate|].
    destruct (calculate_liquidation_zones_inl df' leverage_tiers e' Hc)
      as (_ & Hl & K).
    split; [exact Hl|exact K].
  - destruct (iloc_last_nonempty (map Close df')) as [v Hv].
    { destruct df'; [discriminate|discriminate]. }
    rewrite Hv. discriminate.
Qed.

Lemma generate_heatmap_raises_witness :
  [bar 3 2] <> []
  /\ (exists lev, In lev ["0x"%string] /\ ~ exists L, usable_tier lev L)
  /\ (ZeroDivisionError = ValueError
      \/ ZeroDivisionError = ZeroDivisionError).
Proof.
  apply (generate_heatmap_raises [bar 3 2] ["0x"%string] ZeroDivisionError).
  reflexivity.
Defined.

(** ** Tier strings *)

Lemma str_replace_app (old : ascii) (new s1 s2 : string) :
  str_replace old new (s1 ++ s2)
  = (str_replace old new s1 ++ str_replace old new s2)%string.
Proof.
  induction s1 as [|c s1 IH]; simpl; [reflexivity|].
  destruct (Ascii.eqb c old); rewrite IH; [|reflexivity].
  generalize (str_replace old new s1) (str_replace old new s2).
  intros r1 r2. clear IH.
  induction new as [|d new IHn]; simpl; [reflexivity|now rewrite IHn].
Qed.

(** X19. Where the letter x stands in a tier string, and how often, makes
    no difference: a tier with an x inserted anywhere projects every price
    exactly as the tier without it (so "25", "25x", "x25" and "2x5" are one
    tier). *)
Theorem tier_x_irrelevant (price : Q) (s1 s2 : string) :
  long_zone price (s1 ++ "x" ++ s2) = long_zone price (s1 ++ s2)
  /\ short_zone price (s1 ++ "x" ++ s2) = short_zone price (s1 ++ s2).
Proof.
  unfold long_zone, short_zone.
  rewrite !str_replace_app. simpl. split; reflexivity.
Qed.
